(** * The servo motor plugin of rotors_gazebo_plugins

    A shallow embedding of
    [rotors_gazebo_plugins/src/gazebo_servo_motor_plugin.cpp]: the plugin
    object [GazeboServoMotor], its two command callbacks, the per-iteration
    [OnUpdate] with the position and the torque law, [Publish] and [Load].

    Numbers.  The plugin computes on C++ [double]s.  They are modelled by
    the rationals [Q]: every value is finite and the arithmetic is exact, so
    rounding, infinities and NaN are outside the model.

    Effects.  The member functions mutate the plugin object, the joint they
    point to, a function-local [static] of [OnUpdate], and they call out to
    the joint ([SetForce]) and to the ROS publisher.  The mutable part is
    one [World], threaded by a monad [M] that also collects the calls that
    leave the plugin. *)

From Stdlib Require Import ZArith QArith Lqa List.
From stdpp Require Import base gmap strings.
Import ListNotations.

Local Open Scope Q_scope.

(** ** The [limit] helper *)

(** [limit] is a function template of a header the plugin includes; the
    source file only calls it, always as [limit(value, upper, lower)].  It is
    taken as a parameter of the development, with the contract of a clamp
    to [[lower, upper]]: for [lower <= upper] the result is [lower] below the
    interval, [upper] above it and [value] itself inside.  Nothing is assumed
    when [upper < lower]. *)
Class Limit := {
  limit : Q -> Q -> Q -> Q;
  limit_below : forall value upper lower,
    lower <= upper -> value < lower -> limit value upper lower = lower;
  limit_above : forall value upper lower,
    lower <= upper -> upper < value -> limit value upper lower = upper;
  limit_inside : forall value upper lower,
    lower <= value -> value <= upper -> limit value upper lower = value
}.

(** The usual clamp, one implementation of the contract. *)
Definition clamp (value upper lower : Q) : Q :=
  if Qle_bool value upper then
    if Qle_bool lower value then value else lower
  else upper.

Lemma clamp_below (value upper lower : Q) :
  lower <= upper -> value < lower -> clamp value upper lower = lower.
Proof.
  intros Hlu Hlt. unfold clamp.
  destruct (Qle_bool value upper) eqn:Hu.
  - destruct (Qle_bool lower value) eqn:Hl; [|reflexivity].
    apply Qle_bool_iff in Hl. lra.
  - assert (Hle : Qle_bool value upper = true) by (apply Qle_bool_iff; lra).
    congruence.
Qed.

Lemma clamp_above (value upper lower : Q) :
  lower <= upper -> upper < value -> clamp value upper lower = upper.
Proof.
  intros Hlu Hlt. unfold clamp.
  destruct (Qle_bool value upper) eqn:Hu; [|reflexivity].
  apply Qle_bool_iff in Hu. lra.
Qed.

Lemma clamp_inside (value upper lower : Q) :
  lower <= value -> value <= upper -> clamp value upper lower = value.
Proof.
  intros Hl Hu. unfold clamp.
  apply Qle_bool_iff in Hl, Hu. rewrite Hu, Hl. reflexivity.
Qed.

(** [clamp] as the [limit] of the plugin. *)
Definition clamp_Limit : Limit :=
  {| limit := clamp;
     limit_below := clamp_below;
     limit_above := clamp_above;
     limit_inside := clamp_inside |}.

(** ** Data *)

(** [common::Time]: whole seconds and nanoseconds. *)
Record Time := { sec : Z; nsec : Z }.

(** [common::Time::Double()]. *)
Definition Double (t : Time) : Q :=
  inject_Z (sec t) + inject_Z (nsec t) * (1 # 1000000000).

(** [common::UpdateInfo], of which the plugin reads [simTime] only. *)
Record UpdateInfo := { simTime : Time }.

(** The joint behind [joint_] ([physics::JointPtr]), seen through the
    accessors the plugin calls, all on axis 0: [GetAngle(0).Radian()],
    [GetVelocity(0)], [GetForce(0)], [GetParent()->GetScopedName()], and
    the limits written by [SetLowerLimit(0, _)] and [SetUpperLimit(0, _)]. *)
Record Joint := {
  GetParentScopedName : string;
  GetAngle : Q;
  GetVelocity : Q;
  GetForce : Q;
  GetLowerLimit : Q;
  GetUpperLimit : Q
}.

(** [manipulator_msgs::CommandPositionServoMotor]. *)
Record CommandPositionServoMotor := { motor_angle : Q }.

(** [manipulator_msgs::CommandTorqueServoMotor]. *)
Record CommandTorqueServoMotor := { torque : Q }.

(** [sensor_msgs::JointState], with the header fields [Publish] fills. *)
Record JointState := {
  header_frame_id : string;
  header_stamp_sec : Z;
  header_stamp_nsec : Z;
  name : list string;
  position : list Q;
  velocity : list Q;
  effort : list Q
}.

(** The data members of [GazeboServoMotor] that the source file reads or
    writes.  [angle_reference_] is a [math::Angle]; it is kept as its value
    in radians, which is all [SetFromRadian], [operator-] and [Radian()]
    touch. *)
Record GazeboServoMotor := {
  namespace_ : string;
  joint_name_ : string;
  motor_model_ : string;
  command_sub_topic_ : string;
  joint_state_pub_topic_ : string;
  command_position_sub_topic_ : string;
  command_torque_sub_topic_ : string;
  max_torque_ : Q;
  no_load_speed_ : Q;
  max_angle_error_integral_ : Q;
  kp_ : Q;
  kd_ : Q;
  ki_ : Q;
  max_angle_ : Q;
  min_angle_ : Q;
  sampling_time_ : Q;
  received_first_command_ : bool;
  position_control_ : bool;
  angle_reference_ : Q;
  torque_reference_ : Q;
  angle_error_integral_ : Q
}.

(** The six members written after [Load], replaced together. *)
Definition with_control (p : GazeboServoMotor) (st : Q) (rfc pc : bool)
    (ar tr aei : Q) : GazeboServoMotor :=
  {| namespace_ := namespace_ p;
     joint_name_ := joint_name_ p;
     motor_model_ := motor_model_ p;
     command_sub_topic_ := command_sub_topic_ p;
     joint_state_pub_topic_ := joint_state_pub_topic_ p;
     command_position_sub_topic_ := command_position_sub_topic_ p;
     command_torque_sub_topic_ := command_torque_sub_topic_ p;
     max_torque_ := max_torque_ p;
     no_load_speed_ := no_load_speed_ p;
     max_angle_error_integral_ := max_angle_error_integral_ p;
     kp_ := kp_ p;
     kd_ := kd_ p;
     ki_ := ki_ p;
     max_angle_ := max_angle_ p;
     min_angle_ := min_angle_ p;
     sampling_time_ := st;
     received_first_command_ := rfc;
     position_control_ := pc;
     angle_reference_ := ar;
     torque_reference_ := tr;
     angle_error_integral_ := aei |}.

Definition set_sampling_time_ (v : Q) (p : GazeboServoMotor) :=
  with_control p v (received_first_command_ p) (position_control_ p)
    (angle_reference_ p) (torque_reference_ p) (angle_error_integral_ p).

Definition set_received_first_command_ (v : bool) (p : GazeboServoMotor) :=
  with_control p (sampling_time_ p) v (position_control_ p)
    (angle_reference_ p) (torque_reference_ p) (angle_error_integral_ p).

Definition set_position_control_ (v : bool) (p : GazeboServoMotor) :=
  with_control p (sampling_time_ p) (received_first_command_ p) v
    (angle_reference_ p) (torque_reference_ p) (angle_error_integral_ p).

Definition set_angle_reference_ (v : Q) (p : GazeboServoMotor) :=
  with_control p (sampling_time_ p) (received_first_command_ p)
    (position_control_ p) v (torque_reference_ p) (angle_error_integral_ p).

Definition set_torque_reference_ (v : Q) (p : GazeboServoMotor) :=
  with_control p (sampling_time_ p) (received_first_command_ p)
    (position_control_ p) (angle_reference_ p) v (angle_error_integral_ p).

Definition set_angle_error_integral_ (v : Q) (p : GazeboServoMotor) :=
  with_control p (sampling_time_ p) (received_first_command_ p)
    (position_control_ p) (angle_reference_ p) (torque_reference_ p) v.

(** A call that leaves the plugin: [joint_->SetForce(0, torque)] or
    [joint_state_pub_.publish(joint_state)]. *)
Inductive Call :=
| CallSetForce (torque : Q)
| CallPublish (joint_state : JointState).

(** Everything a member function can read or write.
    - [this]: the plugin object;
    - [prev_sim_time]: the [static double] local to [OnUpdate], [None] until
      the first call has run its initialiser (every plugin object of the
      process shares it; the world holds one plugin);
    - [joint]: the joint [joint_] points to;
    - [GetSimTime]: [model_->GetWorld()->GetSimTime()]. *)
Record World := {
  this : GazeboServoMotor;
  prev_sim_time : option Q;
  joint : Joint;
  GetSimTime : Time
}.

(** ** The monad of the member functions *)

(** A member function maps the world to its result, the world it leaves and
    the calls it made, oldest first. *)
Definition M (A : Type) : Type := World -> A * World * list Call.

#[global] Instance M_ret : MRet M := fun _ x w => (x, w, []).
#[global] Instance M_bind : MBind M :=
  fun _ _ f m w =>
    let '(x, w1, cs1) := m w in
    let '(y, w2, cs2) := f x w1 in
    (y, w2, cs1 ++ cs2).

Definition gets {A : Type} (f : World -> A) : M A := fun w => (f w, w, []).
Definition modify (f : World -> World) : M unit := fun w => (tt, f w, []).
Definition record (c : Call) : M unit := fun w => (tt, w, [c]).

(** The world after a computation, and the calls it made. *)
Definition exec {A : Type} (m : M A) (w : World) : World := snd (fst (m w)).
Definition trace {A : Type} (m : M A) (w : World) : list Call := snd (m w).

(** Reading and writing a member of [this]. *)
Definition member {A : Type} (f : GazeboServoMotor -> A) : M A :=
  gets (fun w => f (this w)).

Definition assign (f : GazeboServoMotor -> GazeboServoMotor) : M unit :=
  modify (fun w =>
    {| this := f (this w); prev_sim_time := prev_sim_time w;
       joint := joint w; GetSimTime := GetSimTime w |}).

(** [joint_->SetForce(0, torque)]: the joint keeps the force as the one
    applied in this iteration, which [GetForce(0)] reads back. *)
Definition SetForce (torque : Q) : M unit :=
  modify (fun w =>
    let j := joint w in
    {| this := this w; prev_sim_time := prev_sim_time w;
       joint := {| GetParentScopedName := GetParentScopedName j;
                   GetAngle := GetAngle j;
                   GetVelocity := GetVelocity j;
                   GetForce := torque;
                   GetLowerLimit := GetLowerLimit j;
                   GetUpperLimit := GetUpperLimit j |};
       GetSimTime := GetSimTime w |});;
  record (CallSetForce torque).

(** [static double prev_sim_time = init;]: the initialiser runs on the
    first call only. *)
Definition static_prev_sim_time (init : Q) : M Q :=
  fun w =>
    match prev_sim_time w with
    | Some v => (v, w, [])
    | None =>
        (init,
         {| this := this w; prev_sim_time := Some init; joint := joint w;
            GetSimTime := GetSimTime w |},
         [])
    end.

Definition set_prev_sim_time (v : Q) : M unit :=
  modify (fun w =>
    {| this := this w; prev_sim_time := Some v; joint := joint w;
       GetSimTime := GetSimTime w |}).

(** ** The member functions *)

Section Plugin.

Context {L : Limit}.

(** [GazeboServoMotor::Publish]. *)
Definition Publish : M unit :=
  now ← gets GetSimTime;
  j ← gets joint;
  joint_name ← member joint_name_;
  let joint_state :=
    {| header_frame_id := GetParentScopedName j;
       header_stamp_sec := sec now;
       header_stamp_nsec := nsec now;
       name := [joint_name];
       position := [GetAngle j];
       velocity := [GetVelocity j];
       effort := [GetForce j] |} in
  record (CallPublish joint_state).

(** [GazeboServoMotor::PositionCommandCallback]. *)
Definition PositionCommandCallback (msg : CommandPositionServoMotor) : M unit :=
  let ref := motor_angle msg in
  assign (set_angle_reference_ ref);;
  assign (set_received_first_command_ true);;
  assign (set_position_control_ true).

(** [GazeboServoMotor::TorqueCommandCallback]. *)
Definition TorqueCommandCallback (msg : CommandTorqueServoMotor) : M unit :=
  assign (set_torque_reference_ (torque msg));;
  assign (set_received_first_command_ true);;
  assign (set_position_control_ false).

(** [GazeboServoMotor::UpdatePosition]. *)
Definition UpdatePosition : M unit :=
  angle_reference ← member angle_reference_;
  j ← gets joint;
  let angle_error := angle_reference - GetAngle j in
  let omega := GetVelocity j in
  sampling_time ← member sampling_time_;
  angle_error_integral ← member angle_error_integral_;
  assign (set_angle_error_integral_
            (angle_error_integral + angle_error * sampling_time));;
  angle_error_integral ← member angle_error_integral_;
  max_angle_error_integral ← member max_angle_error_integral_;
  assign (set_angle_error_integral_
            (limit angle_error_integral max_angle_error_integral
               (- max_angle_error_integral)));;
  kp ← member kp_;
  kd ← member kd_;
  ki ← member ki_;
  angle_error_integral ← member angle_error_integral_;
  let torque := kp * angle_error - kd * omega + ki * angle_error_integral in
  max_torque ← member max_torque_;
  let torque := limit torque max_torque (- max_torque) in
  SetForce torque.

(** [GazeboServoMotor::UpdateTorque]. *)
Definition UpdateTorque : M unit :=
  torque_reference ← member torque_reference_;
  max_torque ← member max_torque_;
  let torque := limit torque_reference max_torque (- max_torque) in
  SetForce torque.

(** [GazeboServoMotor::OnUpdate]. *)
Definition OnUpdate (_info : UpdateInfo) : M unit :=
  prev ← static_prev_sim_time (Double (simTime _info));
  assign (set_sampling_time_ (Double (simTime _info) - prev));;
  set_prev_sim_time (Double (simTime _info));;
  sampling_time ← member sampling_time_;
  assign (set_sampling_time_ (limit sampling_time 1.0 0.001));;
  received_first_command ← member received_first_command_;
  if negb received_first_command then
    Publish
  else
    position_control ← member position_control_;
    (if position_control : bool then UpdatePosition else UpdateTorque);;
    Publish.

End Plugin.

(** ** The simulation around the plugin *)

(** What reaches the plugin: Gazebo's world-update event, fired once per
    simulation iteration, and the two ROS subscriptions.  The physics engine
    is free to move the joint between iterations, so the event carries the
    joint as it stands when the iteration begins. *)
Inductive Event :=
| WorldUpdateBegin (_info : UpdateInfo) (j : Joint)
| CommandPosition (msg : CommandPositionServoMotor)
| CommandTorque (msg : CommandTorqueServoMotor).

(** The world as the iteration begins: the joint as the physics engine left
    it, and the world's clock at the time [_info] reports. *)
Definition iteration (_info : UpdateInfo) (j : Joint) : M unit :=
  modify (fun w =>
    {| this := this w; prev_sim_time := prev_sim_time w;
       joint := j; GetSimTime := simTime _info |}).

Section Simulation.

Context {L : Limit}.

(** One event, delivered to the callback registered for it in [Load]. *)
Definition deliver (e : Event) : M unit :=
  match e with
  | WorldUpdateBegin _info j => iteration _info j;; OnUpdate _info
  | CommandPosition msg => PositionCommandCallback msg
  | CommandTorque msg => TorqueCommandCallback msg
  end.

(** A sequence of events, delivered one after the other. *)
Fixpoint run (es : list Event) : M unit :=
  match es with
  | [] => mret tt
  | e :: es' => deliver e;; run es'
  end.

End Simulation.

(** ** Loading the plugin *)

(** An [sdf::Element] with a value, read by [Get<std::string>()] or by
    [Get<double>()]. *)
Record Element := { Get_string : string; Get_double : Q }.

(** The children of the plugin's SDF element, by name: [HasElement(name)]
    holds when the lookup succeeds, [GetElement(name)] is its result. *)
Abbreviation Sdf := (gmap string Element).

(** [physics::Model::GetJoint]: the joints of the model by name, [None] for
    the null pointer. *)
Abbreviation Model := (gmap string Joint).

(** [getSdfParam<T>(sdf, name, param, default_value)] is a function template
    of a header the plugin includes.  It is taken as a parameter: given the
    SDF element, the name and the default it yields the value left in
    [param]. *)
Class SdfParam := {
  getSdfParam_double : Sdf -> string -> Q -> Q;
  getSdfParam_string : Sdf -> string -> string -> string
}.

(** The reading used where a concrete one is needed: the element's value
    when the element is there, the default otherwise. *)
Definition read_or_default {A : Type} (get : Element -> A) (_sdf : Sdf)
    (name : string) (default_value : A) : A :=
  match _sdf !! name with
  | Some e => get e
  | None => default_value
  end.

(** [read_or_default] as the [getSdfParam] of the plugin. *)
Definition default_SdfParam : SdfParam :=
  {| getSdfParam_double := read_or_default Get_double;
     getSdfParam_string := read_or_default Get_string |}.

(** What [Load] connects once the parameters are read: the update event
    bound to [OnUpdate], the two command subscriptions and the publisher. *)
Record Connections := {
  node_handle_ : string;
  updateConnection_ : bool;
  position_command_sub_ : string;
  torque_command_sub_ : string;
  joint_state_pub_ : string
}.

(** How [Load] ends: [gzthrow] leaves it with an exception, or it returns
    with the plugin configured, the joint limited and the callbacks
    connected.  Either way [gzerr] holds the messages written to the error
    stream. *)
Inductive LoadResult :=
| Thrown (gzerr : list string) (what : string)
| Loaded (gzerr : list string) (this' : GazeboServoMotor) (joint' : Joint)
    (conn : Connections).

Definition quote : string := String (Ascii.ascii_of_nat 34) EmptyString.
Definition newline : string := String (Ascii.ascii_of_nat 10) EmptyString.

Definition msg_robotNamespace : string :=
  "[gazebo_servo_motor] Please specify a robotNamespace." +:+ newline.
Definition msg_jointName : string :=
  "[gazebo_servo_motor] Please specify a jointName, where the rotor is attached."
  +:+ newline.
Definition msg_motorModel : string :=
  "[gazebo_servo_motor] Please specify a motorModel." +:+ newline.
Definition msg_maxTorque : string :=
  "[gazebo_servo_motor] Please specify a maxTorque." +:+ newline.
Definition msg_noLoadSpeed : string :=
  "[gazebo_servo_motor] Please specify a noLoadSpeed." +:+ newline.
Definition msg_joint_not_found (joint_name : string) : string :=
  "[gazebo_servo_motor] Couldn't find specified joint " +:+ quote
  +:+ joint_name +:+ quote +:+ ".".

(** The pattern [Load] repeats for each parameter it asks for:
    [if (_sdf->HasElement(name)) param = _sdf->GetElement(name)->Get<T>();
     else gzerr << message;].  The result is the value of [param] and what
    went to [gzerr]. *)
Definition read_or_gzerr {A : Type} (get : Element -> A) (_sdf : Sdf)
    (name : string) (param : A) (message : string) : A * list string :=
  match _sdf !! name with
  | Some e => (get e, [])
  | None => (param, [message])
  end.

Section Loading.

Context {P : SdfParam}.

(** [GazeboServoMotor::Load], on the plugin as its constructor left it. *)
Definition Load (this : GazeboServoMotor) (_model : Model) (_sdf : Sdf)
    : LoadResult :=
  let '(namespace, e1) :=
    read_or_gzerr Get_string _sdf "robotNamespace" EmptyString
      msg_robotNamespace in
  let '(joint_name, e2) :=
    read_or_gzerr Get_string _sdf "jointName" (joint_name_ this)
      msg_jointName in
  match _model !! joint_name with
  | None => Thrown (e1 ++ e2) (msg_joint_not_found joint_name)
  | Some j =>
      let '(motor_model, e3) :=
        read_or_gzerr Get_string _sdf "motorModel" (motor_model_ this)
          msg_motorModel in
      let '(max_torque, e4) :=
        read_or_gzerr Get_double _sdf "maxTorque" (max_torque_ this)
          msg_maxTorque in
      let '(no_load_speed, e5) :=
        read_or_gzerr Get_double _sdf "noLoadSpeed" (no_load_speed_ this)
          msg_noLoadSpeed in
      let max_angle_error_integral :=
        getSdfParam_double _sdf "maxAngleErrorIntegral"
          (max_angle_error_integral_ this) in
      let command_sub_topic :=
        getSdfParam_string _sdf "commandSubTopic" (command_sub_topic_ this) in
      let joint_state_pub_topic :=
        getSdfParam_string _sdf "jointStatePubTopic"
          (joint_state_pub_topic_ this) in
      let kp := getSdfParam_double _sdf "Kp" (kp_ this) in
      let kd := getSdfParam_double _sdf "Kd" (kd_ this) in
      let ki := getSdfParam_double _sdf "Ki" (ki_ this) in
      let max_angle := getSdfParam_double _sdf "maxAngle" (max_angle_ this) in
      let min_angle := getSdfParam_double _sdf "minAngle" (min_angle_ this) in
      let command_position_sub_topic := command_sub_topic +:+ "_position" in
      let command_torque_sub_topic := command_sub_topic +:+ "_torque" in
      Loaded (e1 ++ e2 ++ e3 ++ e4 ++ e5)
        {| namespace_ := namespace;
           joint_name_ := joint_name;
           motor_model_ := motor_model;
           command_sub_topic_ := command_sub_topic;
           joint_state_pub_topic_ := joint_state_pub_topic;
           command_position_sub_topic_ := command_position_sub_topic;
           command_torque_sub_topic_ := command_torque_sub_topic;
           max_torque_ := max_torque;
           no_load_speed_ := no_load_speed;
           max_angle_error_integral_ := max_angle_error_integral;
           kp_ := kp;
           kd_ := kd;
           ki_ := ki;
           max_angle_ := max_angle;
           min_angle_ := min_angle;
           sampling_time_ := sampling_time_ this;
           received_first_command_ := received_first_command_ this;
           position_control_ := position_control_ this;
           angle_reference_ := angle_reference_ this;
           torque_reference_ := torque_reference_ this;
           angle_error_integral_ := angle_error_integral_ this |}
        {| GetParentScopedName := GetParentScopedName j;
           GetAngle := GetAngle j;
           GetVelocity := GetVelocity j;
           GetForce := GetForce j;
           GetLowerLimit := min_angle;
           GetUpperLimit := max_angle |}
        {| node_handle_ := namespace;
           updateConnection_ := true;
           position_command_sub_ := command_position_sub_topic;
           torque_command_sub_ := command_torque_sub_topic;
           joint_state_pub_ := joint_state_pub_topic |}
  end.

End Loading.

(** The controller has started when [Load] returned with the update event
    connected to [OnUpdate]. *)
Definition started (r : LoadResult) : bool :=
  match r with
  | Thrown _ _ => false
  | Loaded _ _ _ conn => updateConnection_ conn
  end.

(** What [Load] wrote to the error stream. *)
Definition reported (r : LoadResult) : list string :=
  match r with
  | Thrown gzerr _ => gzerr
  | Loaded gzerr _ _ _ => gzerr
  end.

(** The joint name [Load] looks up: the [jointName] element when there is
    one, else the name the constructor left. *)
Definition looked_up_joint (this0 : GazeboServoMotor) (_sdf : Sdf) : string :=
  match _sdf !! "jointName" with
  | Some e => Get_string e
  | None => joint_name_ this0
  end.

(** ** What one call of [OnUpdate] computes *)

(** The raw interval [OnUpdate] first stores in [sampling_time_]: the time
    since the previous call, and 0 on the first call, where the [static] is
    initialised with the current time. *)
Definition raw_sampling_time (_info : UpdateInfo) (w : World) : Q :=
  Double (simTime _info) - default (Double (simTime _info)) (prev_sim_time w).

(** The angle error [UpdatePosition] computes. *)
Definition angle_error_of (w : World) : Q :=
  angle_reference_ (this w) - GetAngle (joint w).

(** The torques among a list of calls, oldest first. *)
Definition forces (cs : list Call) : list Q :=
  omap (fun c => match c with
                 | CallSetForce tq => Some tq
                 | CallPublish _ => None
                 end) cs.

(** The three operating modes the two flags encode. *)
Inductive Mode := Uninitialized | PositionControl | TorqueControl.

Definition mode (p : GazeboServoMotor) : Mode :=
  if negb (received_first_command_ p) then Uninitialized
  else if position_control_ p then PositionControl
  else TorqueControl.

(** ** Concrete data *)

(** A plugin with the gains and the torque limit of the example scenario,
    before any command. *)
Definition demo_servo : GazeboServoMotor :=
  {| namespace_ := "arm";
     joint_name_ := "servo_joint";
     motor_model_ := "servo";
     command_sub_topic_ := "command";
     joint_state_pub_topic_ := "joint_state";
     command_position_sub_topic_ := "command_position";
     command_torque_sub_topic_ := "command_torque";
     max_torque_ := 10.0;
     no_load_speed_ := 1.0;
     max_angle_error_integral_ := 1.0;
     kp_ := 2.0;
     kd_ := 0.5;
     ki_ := 0.0;
     max_angle_ := 1.5;
     min_angle_ := -1.5;
     sampling_time_ := 0.0;
     received_first_command_ := false;
     position_control_ := false;
     angle_reference_ := 0.0;
     torque_reference_ := 0.0;
     angle_error_integral_ := 0.0 |}.

(** A joint at rest at angle 0. *)
Definition demo_joint : Joint :=
  {| GetParentScopedName := "arm::base";
     GetAngle := 0.0;
     GetVelocity := 0.0;
     GetForce := 0.0;
     GetLowerLimit := -1.5;
     GetUpperLimit := 1.5 |}.

Definition demo_world : World :=
  {| this := demo_servo;
     prev_sim_time := None;
     joint := demo_joint;
     GetSimTime := {| sec := 0; nsec := 0 |} |}.

(** A simulation time given in milliseconds, and the update event at that
    time with the joint at rest. *)
Definition update_info_at (ms : Z) : UpdateInfo :=
  {| simTime := {| sec := ms / 1000; nsec := (ms mod 1000) * 1000000 |} |}.

Definition update_at (ms : Z) : Event :=
  WorldUpdateBegin (update_info_at ms) demo_joint.

(** The world after one update at 1.000 s, before any command. *)
Definition demo_world_running : World :=
  exec (run (L := clamp_Limit) [update_at 1000]) demo_world.

(** A position command far out of range between two updates. *)
Definition demo_far_reference : list Event :=
  [update_at 1000; CommandPosition {| motor_angle := 1000.0 |}; update_at 1010].

(** Position control for two updates, then a switch to torque control. *)
Definition demo_switch : list Event :=
  [update_at 1000; CommandPosition {| motor_angle := 0.5 |};
   update_at 1010; update_at 1020; CommandTorque {| torque := 1.0 |}].

Definition demo_world_switched : World :=
  exec (run (L := clamp_Limit) demo_switch) demo_world.

(** A plugin element that names the joint, gives neither [motorModel] nor
    [maxTorque] nor [noLoadSpeed], and has [minAngle] above [maxAngle]. *)
Definition demo_sdf : Sdf :=
  <["jointName" := {| Get_string := "servo_joint"; Get_double := 0.0 |}]>
  (<["minAngle" := {| Get_string := "1.0"; Get_double := 1.0 |}]>
   (<["maxAngle" := {| Get_string := "-1.0"; Get_double := -1.0 |}]> ∅)).

Definition demo_model : Model := {["servo_joint" := demo_joint]}.

(** ** Lemmas on the monad *)

(** Case analysis on a world: whether the [static] is initialised, and the
    two flags of the plugin. *)
Ltac world_cases w :=
  let p := fresh "p" in
  let prev := fresh "prev" in
  destruct w as [p prev ? ?]; destruct p; destruct prev;
  repeat match goal with b : bool |- _ => destruct b end.

Lemma exec_bind {A B : Type} (m : M A) (f : A -> M B) (w : World) :
  exec (m ≫= f) w = exec (f (fst (fst (m w)))) (exec m w).
Proof.
  unfold exec, mbind, M_bind.
  destruct (m w) as [[x w1] cs1]; simpl.
  destruct (f x w1) as [[y w2] cs2]; reflexivity.
Qed.

Lemma trace_bind {A B : Type} (m : M A) (f : A -> M B) (w : World) :
  trace (m ≫= f) w = trace m w ++ trace (f (fst (fst (m w)))) (exec m w).
Proof.
  unfold trace, exec, mbind, M_bind.
  destruct (m w) as [[x w1] cs1]; simpl.
  destruct (f x w1) as [[y w2] cs2]; reflexivity.
Qed.

Section Facts.

Context {L : Limit}.

Lemma exec_run_cons (e : Event) (es : list Event) (w : World) :
  exec (run (e :: es)) w = exec (run es) (exec (deliver e) w).
Proof. simpl run. rewrite exec_bind. reflexivity. Qed.

Lemma trace_run_cons (e : Event) (es : list Event) (w : World) :
  trace (run (e :: es)) w
  = trace (deliver e) w ++ trace (run es) (exec (deliver e) w).
Proof. simpl run. rewrite trace_bind. reflexivity. Qed.

(** The sampling time after a call, whatever the mode. *)
Lemma OnUpdate_sampling_time (_info : UpdateInfo) (w : World) :
  sampling_time_ (this (exec (OnUpdate _info) w))
  = limit (raw_sampling_time _info w) 1.0 0.001.
Proof. world_cases w; reflexivity. Qed.

(** The [static] after a call, whatever the mode. *)
Lemma OnUpdate_prev_sim_time (_info : UpdateInfo) (w : World) :
  prev_sim_time (exec (OnUpdate _info) w) = Some (Double (simTime _info)).
Proof. world_cases w; reflexivity. Qed.

(** The integral after a call: accumulated and clamped in position mode,
    untouched otherwise. *)
Lemma OnUpdate_angle_error_integral (_info : UpdateInfo) (w : World) :
  angle_error_integral_ (this (exec (OnUpdate _info) w))
  = match mode (this w) with
    | PositionControl =>
        limit (angle_error_integral_ (this w)
               + angle_error_of w * limit (raw_sampling_time _info w) 1.0 0.001)
          (max_angle_error_integral_ (this w))
          (- max_angle_error_integral_ (this w))
    | _ => angle_error_integral_ (this w)
    end.
Proof. world_cases w; reflexivity. Qed.

(** The calls of one [OnUpdate], by mode. *)
Lemma OnUpdate_forces (_info : UpdateInfo) (w : World) :
  forces (trace (OnUpdate _info) w)
  = match mode (this w) with
    | Uninitialized => []
    | PositionControl =>
        [limit (kp_ (this w) * angle_error_of w
                - kd_ (this w) * GetVelocity (joint w)
                + ki_ (this w)
                  * angle_error_integral_ (this (exec (OnUpdate _info) w)))
           (max_torque_ (this w)) (- max_torque_ (this w))]
    | TorqueControl =>
        [limit (torque_reference_ (this w))
           (max_torque_ (this w)) (- max_torque_ (this w))]
    end.
Proof. world_cases w; reflexivity. Qed.

(** [limit] stays within its bounds when they are in order. *)
Lemma limit_range (value upper lower : Q) :
  lower <= upper ->
  lower <= limit value upper lower /\ limit value upper lower <= upper.
Proof.
  intros Hlu.
  destruct (Qlt_le_dec value lower) as [Hlo|Hlo].
  - rewrite limit_below by assumption. split; [apply Qle_refl | exact Hlu].
  - destruct (Qlt_le_dec upper value) as [Hhi|Hhi].
    + rewrite limit_above by assumption. split; [exact Hlu | apply Qle_refl].
    + rewrite limit_inside by assumption. split; assumption.
Qed.

Lemma limit_symmetric_range (value bound : Q) :
  0 <= bound ->
  - bound <= limit value bound (- bound) /\ limit value bound (- bound) <= bound.
Proof. intros Hb. apply limit_range. lra. Qed.

Lemma forces_app (cs1 cs2 : list Call) :
  forces (cs1 ++ cs2) = forces cs1 ++ forces cs2.
Proof. apply omap_app. Qed.

(** An update event is [OnUpdate] on the world of the iteration. *)
Lemma exec_deliver_update (_info : UpdateInfo) (j : Joint) (w : World) :
  exec (deliver (WorldUpdateBegin _info j)) w
  = exec (OnUpdate _info) (exec (iteration _info j) w).
Proof. simpl deliver. rewrite exec_bind. reflexivity. Qed.

Lemma trace_deliver_update (_info : UpdateInfo) (j : Joint) (w : World) :
  trace (deliver (WorldUpdateBegin _info j)) w
  = trace (OnUpdate _info) (exec (iteration _info j) w).
Proof. simpl deliver. rewrite trace_bind. reflexivity. Qed.

(** No event writes the parameters read by [Load]. *)
Lemma deliver_max_torque (e : Event) (w : World) :
  max_torque_ (this (exec (deliver e) w)) = max_torque_ (this w).
Proof. destruct e; world_cases w; reflexivity. Qed.

Lemma deliver_max_angle_error_integral (e : Event) (w : World) :
  max_angle_error_integral_ (this (exec (deliver e) w))
  = max_angle_error_integral_ (this w).
Proof. destruct e; world_cases w; reflexivity. Qed.

(** Every torque one event writes is within the torque limit. *)
Lemma deliver_forces_bounded (e : Event) (w : World) (tq : Q) :
  0 <= max_torque_ (this w) ->
  tq ∈ forces (trace (deliver e) w) ->
  - max_torque_ (this w) <= tq /\ tq <= max_torque_ (this w).
Proof.
  intros Hmax Hin.
  destruct e as [_info j|msg|msg].
  - rewrite trace_deliver_update, OnUpdate_forces in Hin.
    change (max_torque_ (this (exec (iteration _info j) w)))
      with (max_torque_ (this w)) in Hin.
    destruct (mode _).
    + inversion Hin.
    + apply list_elem_of_singleton in Hin as ->.
      apply limit_symmetric_range, Hmax.
    + apply list_elem_of_singleton in Hin as ->.
      apply limit_symmetric_range, Hmax.
  - inversion Hin.
  - inversion Hin.
Qed.

(** One event keeps the integral within its bound. *)
Lemma deliver_integral_bounded (e : Event) (w : World) :
  0 <= max_angle_error_integral_ (this w) ->
  - max_angle_error_integral_ (this w) <= angle_error_integral_ (this w)
  /\ angle_error_integral_ (this w) <= max_angle_error_integral_ (this w) ->
  - max_angle_error_integral_ (this w)
    <= angle_error_integral_ (this (exec (deliver e) w))
  /\ angle_error_integral_ (this (exec (deliver e) w))
    <= max_angle_error_integral_ (this w).
Proof.
  intros Hmax Hin.
  destruct e as [_info j|msg|msg].
  - rewrite exec_deliver_update, OnUpdate_angle_error_integral.
    change (this (exec (iteration _info j) w)) with (this w).
    destruct (mode _); try exact Hin.
    apply limit_symmetric_range, Hmax.
  - exact Hin.
  - exact Hin.
Qed.

Lemma exec_run_app (es1 es2 : list Event) (w : World) :
  exec (run (es1 ++ es2)) w = exec (run es2) (exec (run es1) w).
Proof.
  revert w. induction es1 as [|e es1 IH]; intros w.
  - reflexivity.
  - simpl app. rewrite !exec_run_cons. apply IH.
Qed.

(** An update event leaves the two flags, hence the mode, as they are. *)
Lemma deliver_update_mode (_info : UpdateInfo) (j : Joint) (w : World) :
  mode (this (exec (deliver (WorldUpdateBegin _info j)) w)) = mode (this w).
Proof. world_cases w; reflexivity. Qed.

(** Outside position mode an update event leaves the integral alone. *)
Lemma deliver_update_integral_kept (_info : UpdateInfo) (j : Joint) (w : World) :
  mode (this w) <> PositionControl ->
  angle_error_integral_ (this (exec (deliver (WorldUpdateBegin _info j)) w))
  = angle_error_integral_ (this w).
Proof.
  intros Hmode.
  rewrite exec_deliver_update, OnUpdate_angle_error_integral.
  change (this (exec (iteration _info j) w)) with (this w).
  destruct (mode (this w)); [reflexivity | contradiction | reflexivity].
Qed.

(** The same over any number of update events. *)
Lemma run_updates_integral_kept (ticks : list (UpdateInfo * Joint)) (w : World) :
  mode (this w) <> PositionControl ->
  let w' :=
    exec (run (map (fun t => WorldUpdateBegin (fst t) (snd t)) ticks)) w in
  mode (this w') = mode (this w)
  /\ angle_error_integral_ (this w') = angle_error_integral_ (this w).
Proof.
  revert w. induction ticks as [|[_info j] ticks IH]; intros w Hmode.
  - split; reflexivity.
  - simpl map. cbv zeta. rewrite exec_run_cons.
    destruct (IH (exec (deliver (WorldUpdateBegin _info j)) w)) as [IHm IHi].
    + rewrite deliver_update_mode. exact Hmode.
    + rewrite IHm, IHi, deliver_update_mode.
      split; [reflexivity|]. apply deliver_update_integral_kept, Hmode.
Qed.

End Facts.

(** ** The claims on the control loop *)

Section Claims.

Context {L : Limit}.

(** C1.  With [max_torque_ >= 0], every torque written to the joint by
    [SetForce] during any sequence of commands and update events, by the
    position law or by the torque law, lies in
    [[-max_torque_, max_torque_]], whatever the references are. *)
Theorem C1_torque_within_max_torque (w : World) (es : list Event) (tq : Q) :
  0 <= max_torque_ (this w) ->
  tq ∈ forces (trace (run es) w) ->
  - max_torque_ (this w) <= tq <= max_torque_ (this w).
Proof.
  revert w. induction es as [|e es IH]; intros w Hmax Hin.
  - inversion Hin.
  - rewrite trace_run_cons, forces_app in Hin.
    apply elem_of_app in Hin as [Hin|Hin].
    + apply (deliver_forces_bounded e); assumption.
    + rewrite <- (deliver_max_torque e w).
      apply IH; [rewrite deliver_max_torque; exact Hmax | exact Hin].
Qed.

(** C2.  With [max_angle_error_integral_ >= 0] and the integral starting
    within the bound (as the 0 of an integral that has accumulated nothing
    does), [angle_error_integral_] lies in
    [[-max_angle_error_integral_, max_angle_error_integral_]] after any
    sequence of commands and update events; and every update in position
    mode first accumulates [angle_error * sampling_time_] and then clamps
    the sum. *)
Theorem C2_integral_within_bound (w : World) (es : list Event) :
  0 <= max_angle_error_integral_ (this w) ->
  - max_angle_error_integral_ (this w) <= angle_error_integral_ (this w)
    <= max_angle_error_integral_ (this w) ->
  let w' := exec (run es) w in
  - max_angle_error_integral_ (this w) <= angle_error_integral_ (this w')
    <= max_angle_error_integral_ (this w)
  /\ forall _info : UpdateInfo,
       mode (this w') = PositionControl ->
       angle_error_integral_ (this (exec (OnUpdate _info) w'))
       = limit (angle_error_integral_ (this w')
                + angle_error_of w'
                  * sampling_time_ (this (exec (OnUpdate _info) w')))
           (max_angle_error_integral_ (this w'))
           (- max_angle_error_integral_ (this w')).
Proof.
  intros Hmax Hin w'. split.
  - subst w'. revert w Hmax Hin. induction es as [|e es IH]; intros w Hmax Hin.
    + exact Hin.
    + rewrite exec_run_cons.
      rewrite <- (deliver_max_angle_error_integral e w).
      apply IH.
      * rewrite deliver_max_angle_error_integral. exact Hmax.
      * rewrite deliver_max_angle_error_integral.
        apply deliver_integral_bounded; assumption.
  - intros _info Hmode.
    rewrite OnUpdate_angle_error_integral, OnUpdate_sampling_time, Hmode.
    reflexivity.
Qed.

(** C3.  An update in position mode writes the torque
    [limit(kp*angle_error - kd*omega + ki*angle_error_integral, max_torque,
    -max_torque)], with [angle_error = angle_reference - joint angle],
    [omega] the joint velocity and [angle_error_integral] the integral
    after this update's accumulation and clamp.  In particular, with
    [kp = 2.0], [kd = 0.5], [ki = 0.0] and [max_torque = 10.0], after a
    position command of 0.5 rad, one update with the joint at angle 0.0 and
    velocity 0.0, 0.01 s after the previous one, writes the torque 1.0. *)
Theorem C3_position_law :
  (forall (w : World) (_info : UpdateInfo),
     mode (this w) = PositionControl ->
     let w' := exec (OnUpdate _info) w in
     let angle_error := angle_reference_ (this w) - GetAngle (joint w) in
     let omega := GetVelocity (joint w) in
     angle_error_integral_ (this w')
     = limit (angle_error_integral_ (this w)
              + angle_error * sampling_time_ (this w'))
         (max_angle_error_integral_ (this w))
         (- max_angle_error_integral_ (this w))
     /\ forces (trace (OnUpdate _info) w)
        = [limit (kp_ (this w) * angle_error - kd_ (this w) * omega
                  + ki_ (this w) * angle_error_integral_ (this w'))
             (max_torque_ (this w)) (- max_torque_ (this w))])
  /\
  (forall (w : World) (_info : UpdateInfo) (j : Joint),
     kp_ (this w) == 2.0 -> kd_ (this w) == 0.5 -> ki_ (this w) == 0.0 ->
     max_torque_ (this w) == 10.0 ->
     GetAngle j == 0.0 -> GetVelocity j == 0.0 ->
     raw_sampling_time _info w == 0.01 ->
     let w1 := exec (PositionCommandCallback {| motor_angle := 0.5 |}) w in
     let w2 := exec (deliver (WorldUpdateBegin _info j)) w1 in
     sampling_time_ (this w2) == 0.01
     /\ exists tq : Q,
          forces (trace (deliver (WorldUpdateBegin _info j)) w1) = [tq]
          /\ tq == 1.0).
Proof.
  split.
  - intros w _info Hmode w' angle_error omega. subst w'. split.
    + rewrite OnUpdate_angle_error_integral, OnUpdate_sampling_time, Hmode.
      reflexivity.
    + rewrite OnUpdate_forces, Hmode. reflexivity.
  - intros w _info j Hkp Hkd Hki Hmax Hangle Hvel Hdt w1 w2. split.
    + subst w2 w1.
      rewrite exec_deliver_update, OnUpdate_sampling_time.
      change (raw_sampling_time _info _) with (raw_sampling_time _info w).
      rewrite limit_inside; [exact Hdt | rewrite Hdt; lra | rewrite Hdt; lra].
    + subst w1.
      rewrite trace_deliver_update, OnUpdate_forces.
      change (mode _) with PositionControl.
      eexists. split; [reflexivity|].
      match goal with |- limit _ _ (- ?m) == _ =>
        change m with (max_torque_ (this w)) end.
      match goal with |- limit (?kp * ?e - ?kd * ?o + ?ki * ?i) _ _ == _ =>
        change kp with (kp_ (this w)); change kd with (kd_ (this w));
        change ki with (ki_ (this w)); change e with (0.5 - GetAngle j);
        change o with (GetVelocity j); generalize i; intros i'
      end.
      rewrite limit_inside; rewrite ?Hkp, ?Hkd, ?Hki, ?Hmax, ?Hangle, ?Hvel; lra.
Qed.

(** C4.  Every call of [OnUpdate] sets [sampling_time_] to the raw interval
    (current simulation time minus [prev_sim_time]) clamped into
    [[0.001, 1.0]], also when the raw interval is zero or negative, and sets
    [prev_sim_time] to the current simulation time whatever the clamp did;
    on the very first call the raw interval is 0 and [sampling_time_]
    is 0.001. *)
Theorem C4_sampling_time (w : World) (_info : UpdateInfo) :
  let current := Double (simTime _info) in
  let raw := current - default current (prev_sim_time w) in
  let w' := exec (OnUpdate _info) w in
  sampling_time_ (this w') = limit raw 1.0 0.001
  /\ 0.001 <= sampling_time_ (this w') <= 1.0
  /\ (raw <= 0 -> sampling_time_ (this w') = 0.001)
  /\ prev_sim_time w' = Some current
  /\ (prev_sim_time w = None -> raw == 0 /\ sampling_time_ (this w') = 0.001).
Proof.
  intros current raw w'. subst w'.
  rewrite OnUpdate_sampling_time, OnUpdate_prev_sim_time.
  change (raw_sampling_time _info w) with raw.
  assert (Hfirst : prev_sim_time w = None -> raw == 0).
  { intros Hnone. subst raw. rewrite Hnone. simpl. lra. }
  split; [reflexivity|].
  split; [split; apply limit_range; lra|].
  split; [intros Hraw; apply limit_below; lra|].
  split; [reflexivity|].
  intros Hnone. split; [apply Hfirst, Hnone|].
  apply limit_below; [lra|]. rewrite (Hfirst Hnone). lra.
Qed.

(** One update event before any command: [OnUpdate] only publishes the
    joint state of the iteration. *)
Lemma deliver_update_before_first_command (_info : UpdateInfo) (j : Joint)
    (w : World) :
  received_first_command_ (this w) = false ->
  let w' := exec (deliver (WorldUpdateBegin _info j)) w in
  trace (deliver (WorldUpdateBegin _info j)) w
  = [CallPublish
       {| header_frame_id := GetParentScopedName j;
          header_stamp_sec := sec (simTime _info);
          header_stamp_nsec := nsec (simTime _info);
          name := [joint_name_ (this w)];
          position := [GetAngle j];
          velocity := [GetVelocity j];
          effort := [GetForce j] |}]
  /\ received_first_command_ (this w') = false
  /\ joint_name_ (this w') = joint_name_ (this w)
  /\ angle_error_integral_ (this w') = angle_error_integral_ (this w)
  /\ joint w' = j.
Proof.
  world_cases w; intros Hrfc; try discriminate Hrfc; repeat split.
Qed.

(** C5.  Over any sequence of update events before the first command,
    neither control law runs: [SetForce] is not called at all (so never
    with a nonzero computed torque) and the integral is left alone, and
    each event publishes one [JointState] with the joint's
    angle, velocity and applied force, stamped with the simulation time of
    the event. *)
Theorem C5_before_first_command (w : World) (ticks : list (UpdateInfo * Joint)) :
  received_first_command_ (this w) = false ->
  let es := map (fun t => WorldUpdateBegin (fst t) (snd t)) ticks in
  forces (trace (run es) w) = []
  /\ trace (run es) w
     = map (fun t =>
              CallPublish
                {| header_frame_id := GetParentScopedName (snd t);
                   header_stamp_sec := sec (simTime (fst t));
                   header_stamp_nsec := nsec (simTime (fst t));
                   name := [joint_name_ (this w)];
                   position := [GetAngle (snd t)];
                   velocity := [GetVelocity (snd t)];
                   effort := [GetForce (snd t)] |}) ticks
  /\ angle_error_integral_ (this (exec (run es) w))
     = angle_error_integral_ (this w)
  /\ received_first_command_ (this (exec (run es) w)) = false.
Proof.
  intros Hrfc es. subst es.
  assert (Hgoal :
    trace (run (map (fun t => WorldUpdateBegin (fst t) (snd t)) ticks)) w
    = map (fun t =>
             CallPublish
               {| header_frame_id := GetParentScopedName (snd t);
                  header_stamp_sec := sec (simTime (fst t));
                  header_stamp_nsec := nsec (simTime (fst t));
                  name := [joint_name_ (this w)];
                  position := [GetAngle (snd t)];
                  velocity := [GetVelocity (snd t)];
                  effort := [GetForce (snd t)] |}) ticks
    /\ angle_error_integral_
         (this (exec (run (map (fun t => WorldUpdateBegin (fst t) (snd t))
                           ticks)) w))
       = angle_error_integral_ (this w)
    /\ received_first_command_
         (this (exec (run (map (fun t => WorldUpdateBegin (fst t) (snd t))
                           ticks)) w))
       = false).
  { revert w Hrfc. induction ticks as [|[_info j] ticks IH]; intros w Hrfc.
    - repeat split. exact Hrfc.
    - simpl map. rewrite trace_run_cons, exec_run_cons.
      destruct (deliver_update_before_first_command _info j w Hrfc)
        as (Htr & Hrfc' & Hname & Hint & _).
      destruct (IH _ Hrfc') as (IHtr & IHint & IHrfc).
      rewrite Htr, IHtr, IHint, IHrfc, Hname, Hint. repeat split. }
  destruct Hgoal as (Htr & Hint & Hrfc').
  repeat split; try assumption.
  rewrite Htr. clear. induction ticks as [|t ticks IH]; [reflexivity|exact IH].
Qed.

(** C6.  A position command sets [angle_reference_] to the commanded angle,
    the mode to position control and the first-command flag to true; a
    torque command sets [torque_reference_], the mode to torque control and
    the flag to true; both do so from any state.  An update event changes
    neither flag nor reference, so commands are the only mode transitions
    and the last command decides; once set the flag stays set, and no
    sequence of events leads back to the uninitialised mode. *)
Theorem C6_command_transitions :
  (forall (w : World) (msg : CommandPositionServoMotor),
     let p := this (exec (PositionCommandCallback msg) w) in
     angle_reference_ p = motor_angle msg
     /\ received_first_command_ p = true
     /\ position_control_ p = true
     /\ mode p = PositionControl)
  /\ (forall (w : World) (msg : CommandTorqueServoMotor),
        let p := this (exec (TorqueCommandCallback msg) w) in
        torque_reference_ p = torque msg
        /\ received_first_command_ p = true
        /\ position_control_ p = false
        /\ mode p = TorqueControl)
  /\ (forall (w : World) (_info : UpdateInfo) (j : Joint),
        let p := this (exec (deliver (WorldUpdateBegin _info j)) w) in
        received_first_command_ p = received_first_command_ (this w)
        /\ position_control_ p = position_control_ (this w)
        /\ angle_reference_ p = angle_reference_ (this w)
        /\ torque_reference_ p = torque_reference_ (this w)
        /\ mode p = mode (this w))
  /\ (forall (w : World) (es : list Event),
        received_first_command_ (this w) = true ->
        received_first_command_ (this (exec (run es) w)) = true)
  /\ (forall (w : World) (es : list Event),
        mode (this w) <> Uninitialized ->
        mode (this (exec (run es) w)) <> Uninitialized).
Proof.
  assert (Hflag : forall (es : list Event) (w : World),
            received_first_command_ (this w) = true ->
            received_first_command_ (this (exec (run es) w)) = true).
  { induction es as [|e es IH]; intros w Hrfc.
    - exact Hrfc.
    - rewrite exec_run_cons. apply IH.
      destruct e as [_info j|msg|msg]; [|reflexivity|reflexivity].
      revert Hrfc. world_cases w; intros Hrfc;
        try discriminate Hrfc; reflexivity. }
  split; [intros w msg; repeat split|].
  split; [intros w msg; repeat split|].
  split; [intros w _info j; world_cases w; repeat split|].
  split; [intros w es; apply Hflag|].
  intros w es Hmode Hmode'.
  assert (Hrfc : received_first_command_ (this w) = true).
  { unfold mode in Hmode.
    destruct (received_first_command_ (this w)); [reflexivity|].
    contradiction Hmode; reflexivity. }
  apply (Hflag es) in Hrfc. unfold mode in Hmode'. rewrite Hrfc in Hmode'.
  simpl in Hmode'. destruct (position_control_ _); discriminate Hmode'.
Qed.

(** C7, as the code has it.  After a torque command, from any state and so
    also in the middle of position control, the next update event writes
    exactly [limit(torque_reference, max_torque, -max_torque)]: one
    [SetForce], no term of the position law.  [UpdateTorque] changes no
    member of the plugin; the update around it changes [sampling_time_] and
    the [static] [prev_sim_time], as every update does, and leaves the
    mode, both references and the integral as they were. *)
Theorem C7_torque_law_after_switch (w : World) (msg : CommandTorqueServoMotor)
    (_info : UpdateInfo) (j : Joint) :
  let w1 := exec (TorqueCommandCallback msg) w in
  let w2 := exec (deliver (WorldUpdateBegin _info j)) w1 in
  forces (trace (deliver (WorldUpdateBegin _info j)) w1)
  = [limit (torque msg) (max_torque_ (this w)) (- max_torque_ (this w))]
  /\ (forall w0 : World,
        this (exec UpdateTorque w0) = this w0
        /\ prev_sim_time (exec UpdateTorque w0) = prev_sim_time w0)
  /\ this w2
     = set_sampling_time_ (limit (raw_sampling_time _info w) 1.0 0.001)
         (this w1)
  /\ prev_sim_time w2 = Some (Double (simTime _info)).
Proof.
  intros w1 w2. subst w2 w1.
  split; [world_cases w; reflexivity|].
  split; [intros w0; split; reflexivity|].
  split; world_cases w; reflexivity.
Qed.

(** C8.  No operation zeroes [angle_error_integral_]: a position command, a
    torque command and an update event outside position mode leave it as
    it is, so it carries over a switch to torque control and back; it
    changes only in an update in position mode, to the clamped sum of the
    position law. *)
Theorem C8_integral_never_reset (w : World) :
  (forall msg : CommandPositionServoMotor,
     angle_error_integral_ (this (exec (PositionCommandCallback msg) w))
     = angle_error_integral_ (this w))
  /\ (forall msg : CommandTorqueServoMotor,
        angle_error_integral_ (this (exec (TorqueCommandCallback msg) w))
        = angle_error_integral_ (this w))
  /\ (forall (_info : UpdateInfo) (j : Joint),
        mode (this w) <> PositionControl ->
        angle_error_integral_
          (this (exec (deliver (WorldUpdateBegin _info j)) w))
        = angle_error_integral_ (this w))
  /\ (forall (_info : UpdateInfo) (j : Joint),
        mode (this w) = PositionControl ->
        let w' := exec (deliver (WorldUpdateBegin _info j)) w in
        angle_error_integral_ (this w')
        = limit (angle_error_integral_ (this w)
                 + (angle_reference_ (this w) - GetAngle j)
                   * sampling_time_ (this w'))
            (max_angle_error_integral_ (this w))
            (- max_angle_error_integral_ (this w)))
  /\ (forall (to_torque : CommandTorqueServoMotor)
             (ticks : list (UpdateInfo * Joint))
             (to_position : CommandPositionServoMotor),
        angle_error_integral_
          (this (exec (run (CommandTorque to_torque
                            :: map (fun t => WorldUpdateBegin (fst t) (snd t))
                                 ticks
                            ++ [CommandPosition to_position])) w))
        = angle_error_integral_ (this w)).
Proof.
  split; [reflexivity|].
  split; [reflexivity|].
  split; [intros _info j; apply deliver_update_integral_kept|].
  split.
  - intros _info j Hmode w'. subst w'.
    rewrite exec_deliver_update, OnUpdate_angle_error_integral.
    rewrite OnUpdate_sampling_time.
    change (mode (this (exec (iteration _info j) w))) with (mode (this w)).
    rewrite Hmode. reflexivity.
  - intros to_torque ticks to_position.
    rewrite exec_run_cons, exec_run_app.
    set (w1 := exec (deliver (CommandTorque to_torque)) w).
    destruct (run_updates_integral_kept ticks w1) as [_ Hint].
    + subst w1. world_cases w; discriminate.
    + change (angle_error_integral_ (this w1))
        with (angle_error_integral_ (this w)) in Hint.
      rewrite <- Hint. reflexivity.
Qed.

(** C10.  A position command leaves [torque_reference_] as it is and a
    torque command leaves [angle_reference_] as it is, and so does an
    update event; hence after a torque command [t], a position command and
    a torque command [t'], the next update writes [limit(t', max_torque,
    -max_torque)], and a command of the other kind in between does not
    change the reference it is not aimed at. *)
Theorem C10_other_reference_kept (w : World) :
  (forall msg : CommandPositionServoMotor,
     torque_reference_ (this (exec (PositionCommandCallback msg) w))
     = torque_reference_ (this w))
  /\ (forall msg : CommandTorqueServoMotor,
        angle_reference_ (this (exec (TorqueCommandCallback msg) w))
        = angle_reference_ (this w))
  /\ (forall (t : CommandTorqueServoMotor) (p : CommandPositionServoMotor)
             (t' : CommandTorqueServoMotor) (_info : UpdateInfo) (j : Joint),
        forces (trace (run [CommandTorque t; CommandPosition p;
                            CommandTorque t'; WorldUpdateBegin _info j]) w)
        = [limit (torque t') (max_torque_ (this w)) (- max_torque_ (this w))])
  /\ (forall (t : CommandTorqueServoMotor) (p : CommandPositionServoMotor)
             (_info : UpdateInfo) (j : Joint),
        torque_reference_
          (this (exec (run [CommandTorque t; CommandPosition p;
                            WorldUpdateBegin _info j]) w))
        = torque t)
  /\ (forall (p : CommandPositionServoMotor) (t : CommandTorqueServoMotor)
             (_info : UpdateInfo) (j : Joint),
        angle_reference_
          (this (exec (run [CommandPosition p; CommandTorque t;
                            WorldUpdateBegin _info j]) w))
        = motor_angle p).
Proof.
  split; [reflexivity|].
  split; [reflexivity|].
  split; [intros t p t' _info j; world_cases w; reflexivity|].
  split; [intros t p _info j; world_cases w; reflexivity|].
  intros p t _info j; world_cases w; reflexivity.
Qed.

End Claims.

(** ** The claim on [Load] *)

Section LoadClaims.

Context {P : SdfParam}.

(** Membership in a list that is written out. *)
Ltac in_list :=
  solve [repeat first [apply list_elem_of_here | apply list_elem_of_further]].

Lemma Load_joint_not_found (this0 : GazeboServoMotor) (_model : Model)
    (_sdf : Sdf) :
  _model !! looked_up_joint this0 _sdf = None ->
  exists gzerr : list string,
    Load this0 _model _sdf
    = Thrown gzerr (msg_joint_not_found (looked_up_joint this0 _sdf)).
Proof.
  unfold Load, looked_up_joint, read_or_gzerr. intros Hnone.
  destruct (_sdf !! "robotNamespace"), (_sdf !! "jointName");
    rewrite Hnone; eexists; reflexivity.
Qed.

Lemma Load_joint_found (this0 : GazeboServoMotor) (_model : Model)
    (_sdf : Sdf) (j : Joint) :
  _model !! looked_up_joint this0 _sdf = Some j ->
  exists (gzerr : list string) (this' : GazeboServoMotor) (joint' : Joint)
         (conn : Connections),
    Load this0 _model _sdf = Loaded gzerr this' joint' conn
    /\ updateConnection_ conn = true
    /\ GetLowerLimit joint' = min_angle_ this'
    /\ GetUpperLimit joint' = max_angle_ this'
    /\ min_angle_ this' = getSdfParam_double _sdf "minAngle" (min_angle_ this0)
    /\ max_angle_ this' = getSdfParam_double _sdf "maxAngle" (max_angle_ this0)
    /\ (_sdf !! "motorModel" = None ->
        motor_model_ this' = motor_model_ this0 /\ msg_motorModel ∈ gzerr)
    /\ (_sdf !! "maxTorque" = None ->
        max_torque_ this' = max_torque_ this0 /\ msg_maxTorque ∈ gzerr)
    /\ (_sdf !! "noLoadSpeed" = None ->
        no_load_speed_ this' = no_load_speed_ this0
        /\ msg_noLoadSpeed ∈ gzerr).
Proof.
  unfold Load, looked_up_joint, read_or_gzerr. intros Hsome.
  destruct (_sdf !! "robotNamespace"), (_sdf !! "jointName");
    rewrite Hsome;
    destruct (_sdf !! "motorModel"), (_sdf !! "maxTorque"),
      (_sdf !! "noLoadSpeed");
    do 4 eexists; (split; [reflexivity|]); simpl;
    repeat split; try discriminate; in_list.
Qed.

(** C9, as the code has it.  Of the configuration errors only an invalid
    joint reference is fatal: when the model has no joint of the name
    [Load] looks up, [Load] throws and connects nothing.  Otherwise [Load]
    returns with the update event connected, whatever else is missing: a
    missing [jointName] is written to the error stream in either case, a
    missing [motorModel], [maxTorque] or [noLoadSpeed] is written to the
    error stream and the member keeps the value it had; [minAngle] and
    [maxAngle] are not compared, and are written to the joint's limits as
    read. *)
Theorem C9_load_configuration_errors (this0 : GazeboServoMotor)
    (_model : Model) (_sdf : Sdf) :
  let r := Load this0 _model _sdf in
  let joint_name := looked_up_joint this0 _sdf in
  (_model !! joint_name = None ->
   started r = false
   /\ exists gzerr : list string,
        r = Thrown gzerr (msg_joint_not_found joint_name))
  /\ (forall j : Joint,
        _model !! joint_name = Some j ->
        started r = true
        /\ exists (gzerr : list string) (this' : GazeboServoMotor)
                  (joint' : Joint) (conn : Connections),
             r = Loaded gzerr this' joint' conn
             /\ GetLowerLimit joint' = min_angle_ this'
             /\ GetUpperLimit joint' = max_angle_ this'
             /\ min_angle_ this'
                = getSdfParam_double _sdf "minAngle" (min_angle_ this0)
             /\ max_angle_ this'
                = getSdfParam_double _sdf "maxAngle" (max_angle_ this0)
             /\ (_sdf !! "motorModel" = None ->
                 motor_model_ this' = motor_model_ this0
                 /\ msg_motorModel ∈ reported r)
             /\ (_sdf !! "maxTorque" = None ->
                 max_torque_ this' = max_torque_ this0
                 /\ msg_maxTorque ∈ reported r)
             /\ (_sdf !! "noLoadSpeed" = None ->
                 no_load_speed_ this' = no_load_speed_ this0
                 /\ msg_noLoadSpeed ∈ reported r))
  /\ (_sdf !! "jointName" = None -> msg_jointName ∈ reported r).
Proof.
  intros r joint_name. subst r joint_name.
  split; [|split].
  - intros Hnone.
    destruct (Load_joint_not_found this0 _model _sdf Hnone) as [gzerr Heq].
    rewrite Heq. split; [reflexivity | eexists; reflexivity].
  - intros j Hsome.
    destruct (Load_joint_found this0 _model _sdf j Hsome)
      as (gzerr & this' & joint' & conn & Heq & Hconn & Hlo & Hup & Hmin & Hmax
          & Hmm & Hmt & Hnl).
    rewrite Heq. simpl. split; [exact Hconn|].
    exists gzerr, this', joint', conn.
    split; [reflexivity|]. auto 10.
  - intros Hnone.
    unfold Load, read_or_gzerr, reported. rewrite Hnone.
    destruct (_sdf !! "robotNamespace"), (_model !! joint_name_ this0);
      destruct (_sdf !! "motorModel"), (_sdf !! "maxTorque"),
        (_sdf !! "noLoadSpeed");
      simpl; in_list.
Qed.

End LoadClaims.

(** ** Concrete runs *)

Example demo_far_reference_forces :
  forces (trace (run (L := clamp_Limit) demo_far_reference) demo_world) = [10.0].
Proof. vm_compute. reflexivity. Qed.

Example demo_switch_mode :
  mode (this demo_world_switched) = TorqueControl.
Proof. vm_compute. reflexivity. Qed.

Example demo_load_started :
  started (Load (P := default_SdfParam) demo_servo demo_model demo_sdf) = true.
Proof. vm_compute. reflexivity. Qed.

(** C1 on a run: a reference of 1000 rad saturates at the torque limit. *)
Lemma C1_witness_far_reference :
  - max_torque_ (this demo_world) <= 10.0 <= max_torque_ (this demo_world).
Proof.
  apply (@C1_torque_within_max_torque clamp_Limit demo_world
           demo_far_reference 10.0).
  - vm_compute. discriminate.
  - rewrite demo_far_reference_forces. apply list_elem_of_here.
Defined.

(** C2 on a run: two updates in position control, then torque control. *)
Lemma C2_witness_switch :
  - max_angle_error_integral_ (this demo_world)
    <= angle_error_integral_ (this demo_world_switched)
    <= max_angle_error_integral_ (this demo_world).
Proof.
  apply (@C2_integral_within_bound clamp_Limit demo_world demo_switch).
  - vm_compute. discriminate.
  - split; vm_compute; discriminate.
Defined.

(** C3 on the example scenario: gains 2.0, 0.5, 0.0, torque limit 10.0,
    position command 0.5, joint at rest at 0, update 0.01 s after the
    previous one. *)
Lemma C3_witness_scenario :
  exists tq : Q,
    forces (trace (deliver (L := clamp_Limit) (update_at 1010))
              (exec (PositionCommandCallback {| motor_angle := 0.5 |})
                 demo_world_running))
    = [tq]
    /\ tq == 1.0.
Proof.
  apply (proj2 (@C3_position_law clamp_Limit) demo_world_running
           (update_info_at 1010) demo_joint); vm_compute; reflexivity.
Defined.

(** C5 on a run: three updates and no command. *)
Lemma C5_witness_three_updates :
  forces (trace (run (L := clamp_Limit)
                   [update_at 1000; update_at 1010; update_at 1020])
            demo_world)
  = [].
Proof.
  apply (@C5_before_first_command clamp_Limit demo_world
           [(update_info_at 1000, demo_joint);
            (update_info_at 1010, demo_joint);
            (update_info_at 1020, demo_joint)]).
  reflexivity.
Defined.

(** C7 as stated fails: an update in torque mode does write controller
    state.  After the switch of [demo_switch], with [sampling_time_] at
    0.01 and [prev_sim_time] at 1.02, the update at 1.05 s leaves
    [sampling_time_] at 0.03 and [prev_sim_time] at 1.05. *)
Lemma C7_counterexample_update_writes_timing :
  let w1 := demo_world_switched in
  let w2 := exec (deliver (L := clamp_Limit) (update_at 1050)) w1 in
  mode (this w1) = TorqueControl
  /\ sampling_time_ (this w1) == 0.01
  /\ sampling_time_ (this w2) == 0.03
  /\ this w2 <> this w1
  /\ prev_sim_time w2 <> prev_sim_time w1.
Proof.
  repeat split.
  - intros Heq. apply (f_equal sampling_time_) in Heq.
    vm_compute in Heq. discriminate Heq.
  - intros Heq. vm_compute in Heq. discriminate Heq.
Qed.

(** C9 as stated fails: with [motorModel], [maxTorque] and [noLoadSpeed]
    missing and [minAngle] above [maxAngle], [Load] still returns with the
    update event connected. *)
Lemma C9_counterexample_load_starts :
  demo_sdf !! "motorModel" = None
  /\ demo_sdf !! "maxTorque" = None
  /\ demo_sdf !! "noLoadSpeed" = None
  /\ started (Load (P := default_SdfParam) demo_servo demo_model demo_sdf)
     = true
  /\ exists (gzerr : list string) (this' : GazeboServoMotor) (joint' : Joint)
            (conn : Connections),
       Load (P := default_SdfParam) demo_servo demo_model demo_sdf
       = Loaded gzerr this' joint' conn
       /\ max_angle_ this' < min_angle_ this'
       /\ GetUpperLimit joint' < GetLowerLimit joint'.
Proof.
  split; [vm_compute; reflexivity|].
  split; [vm_compute; reflexivity|].
  split; [vm_compute; reflexivity|].
  split; [vm_compute; reflexivity|].
  do 4 eexists. split; [vm_compute; reflexivity|].
  split; vm_compute; reflexivity.
Qed.

(** C9 on a load: the model has no joint of the name the plugin element
    gives. *)
Lemma C9_witness_joint_not_found :
  started (Load (P := default_SdfParam) demo_servo ∅ demo_sdf) = false.
Proof.
  apply (proj1 (@C9_load_configuration_errors default_SdfParam demo_servo
                  ∅ demo_sdf)).
  vm_compute. reflexivity.
Defined.

(** C4 on a run: the first update ever leaves [sampling_time_] at 0.001
    and the [static] at the time of the update. *)
Lemma C4_witness_first_update :
  sampling_time_ (this demo_world_running) = 0.001
  /\ prev_sim_time demo_world_running
     = Some (Double (simTime (update_info_at 1000))).
Proof.
  pose proof (@C4_sampling_time clamp_Limit
                (exec (iteration (update_info_at 1000) demo_joint) demo_world)
                (update_info_at 1000)) as (_ & _ & _ & Hprev & Hfirst).
  split; [apply Hfirst; reflexivity | exact Hprev].
Defined.

(** The torques of [demo_switch] followed by one more update: twice the
    position law on an error of 0.5 rad, then the commanded torque. *)
Example demo_switch_forces :
  Forall2 Qeq
    (forces (trace (run (L := clamp_Limit) (demo_switch ++ [update_at 1050]))
               demo_world))
    [1.0; 1.0; 1.0].
Proof. vm_compute. repeat constructor. Qed.

(** * Further properties of the plugin *)

(** ** Definitions *)

(** The members [Load] sets and no callback writes. *)
Definition parameters (p : GazeboServoMotor) :=
  (namespace_ p, joint_name_ p, motor_model_ p,
   (command_sub_topic_ p, joint_state_pub_topic_ p,
    command_position_sub_topic_ p, command_torque_sub_topic_ p),
   (max_torque_ p, no_load_speed_ p, max_angle_error_integral_ p),
   (kp_ p, kd_ p, ki_ p), (max_angle_ p, min_angle_ p)).

(** Update events and commands. *)
Definition is_update (e : Event) : bool :=
  match e with
  | WorldUpdateBegin _ _ => true
  | CommandPosition _ | CommandTorque _ => false
  end.

(** The update event of a pair of its arguments. *)
Definition update_of (t : UpdateInfo * Joint) : Event :=
  WorldUpdateBegin (fst t) (snd t).

(** The number of update events in a sequence. *)
Fixpoint updates (es : list Event) : nat :=
  match es with
  | [] => 0
  | e :: es' => (if is_update e then 1 else 0) + updates es'
  end.

(** The events from the first command on. *)
Fixpoint from_first_command (es : list Event) : list Event :=
  match es with
  | [] => []
  | e :: es' => if is_update e then from_first_command es' else es
  end.

(** The messages among a list of calls, oldest first. *)
Definition publishes (cs : list Call) : list JointState :=
  omap (fun c => match c with
                 | CallSetForce _ => None
                 | CallPublish joint_state => Some joint_state
                 end) cs.


(** The callback of another plugin object of the same process comes next:
    the object and its joint change, the [static] of [OnUpdate] and the
    clock stay. *)
Definition other_plugin (p : GazeboServoMotor) (j : Joint) : M unit :=
  modify (fun w =>
    {| this := p; prev_sim_time := prev_sim_time w; joint := j;
       GetSimTime := GetSimTime w |}).

(** ** Runs *)

Section RunFacts.

Context {L : Limit}.

Lemma trace_run_app (es1 es2 : list Event) (w : World) :
  trace (run (es1 ++ es2)) w
  = trace (run es1) w ++ trace (run es2) (exec (run es1) w).
Proof.
  revert w. induction es1 as [|e es1 IH]; intros w.
  - reflexivity.
  - change ((e :: es1) ++ es2) with (e :: (es1 ++ es2)).
    rewrite !trace_run_cons, exec_run_cons, IH.
    apply app_assoc.
Qed.

Lemma deliver_parameters (e : Event) (w : World) :
  parameters (this (exec (deliver e) w)) = parameters (this w).
Proof. destruct e; world_cases w; reflexivity. Qed.

(** X1.  No sequence of commands and update events changes a member that
    [Load] sets: names, topics, torque and integral limits, gains and angle
    limits are as [Load] left them. *)
Theorem X1_run_keeps_parameters (es : list Event) (w : World) :
  parameters (this (exec (run es) w)) = parameters (this w).
Proof.
  revert w. induction es as [|e es IH]; intros w.
  - reflexivity.
  - rewrite exec_run_cons, IH. apply deliver_parameters.
Qed.

Lemma deliver_command_silent (e : Event) (w : World) :
  is_update e = false ->
  trace (deliver e) w = []
  /\ joint (exec (deliver e) w) = joint w
  /\ prev_sim_time (exec (deliver e) w) = prev_sim_time w
  /\ GetSimTime (exec (deliver e) w) = GetSimTime w
  /\ sampling_time_ (this (exec (deliver e) w)) = sampling_time_ (this w)
  /\ angle_error_integral_ (this (exec (deliver e) w))
     = angle_error_integral_ (this w).
Proof. destruct e; [discriminate | repeat split ..]. Qed.

(** X2.  Commands alone have no effect outside the plugin object: a
    sequence of position and torque commands calls neither [SetForce] nor
    the publisher, and leaves the joint, the [static] [prev_sim_time],
    [sampling_time_] and the integral as they were. *)
Theorem X2_commands_are_silent (cmds : list Event) (w : World) :
  Forall (fun e => is_update e = false) cmds ->
  let w' := exec (run cmds) w in
  trace (run cmds) w = []
  /\ joint w' = joint w
  /\ prev_sim_time w' = prev_sim_time w
  /\ sampling_time_ (this w') = sampling_time_ (this w)
  /\ angle_error_integral_ (this w') = angle_error_integral_ (this w).
Proof.
  intros Hcmds. revert w.
  induction Hcmds as [|e cmds He _ IH]; intros w.
  - repeat split.
  - cbv zeta. rewrite trace_run_cons, exec_run_cons.
    destruct (deliver_command_silent e w He) as (Ht & Hj & Hp & _ & Hs & Hi).
    destruct (IH (exec (deliver e) w)) as (IHt & IHj & IHp & IHs & IHi).
    rewrite Ht, IHt, IHj, IHp, IHs, IHi. repeat split; assumption.
Qed.

(** An update event leaves what the commands set. *)
Lemma deliver_update_keeps_commands (t : UpdateInfo * Joint) (w : World) :
  let p := this (exec (deliver (update_of t)) w) in
  received_first_command_ p = received_first_command_ (this w)
  /\ position_control_ p = position_control_ (this w)
  /\ angle_reference_ p = angle_reference_ (this w)
  /\ torque_reference_ p = torque_reference_ (this w).
Proof. destruct t; world_cases w; repeat split. Qed.

Lemma run_updates_keep_commands (ticks : list (UpdateInfo * Joint)) (w : World) :
  let p := this (exec (run (map update_of ticks)) w) in
  received_first_command_ p = received_first_command_ (this w)
  /\ position_control_ p = position_control_ (this w)
  /\ angle_reference_ p = angle_reference_ (this w)
  /\ torque_reference_ p = torque_reference_ (this w).
Proof.
  revert w. induction ticks as [|t ticks IH]; intros w.
  - repeat split.
  - change (map update_of (t :: ticks))
      with (update_of t :: map update_of ticks).
    cbv zeta. rewrite exec_run_cons.
    destruct (IH (exec (deliver (update_of t)) w)) as (Hr & Hp & Ha & Ht).
    destruct (deliver_update_keeps_commands t w) as (Hr' & Hp' & Ha' & Ht').
    rewrite Hr, Hp, Ha, Ht. repeat split; assumption.
Qed.

(** X3.  The last command decides, whatever came before and however many
    update events follow: after a position command the plugin is in
    position control with that command's angle as reference, after a
    torque command it is in torque control with that command's torque. *)
Theorem X3_last_command_decides (es : list Event)
    (ticks : list (UpdateInfo * Joint)) (w : World) :
  (forall msg : CommandPositionServoMotor,
     let w' :=
       exec (run (es ++ CommandPosition msg :: map update_of ticks)) w in
     mode (this w') = PositionControl
     /\ angle_reference_ (this w') = motor_angle msg)
  /\ (forall msg : CommandTorqueServoMotor,
        let w' :=
          exec (run (es ++ CommandTorque msg :: map update_of ticks)) w in
        mode (this w') = TorqueControl
        /\ torque_reference_ (this w') = torque msg).
Proof.
  split; intros msg w'; subst w'; rewrite exec_run_app, exec_run_cons;
    set (w1 := exec (run es) w);
    match goal with |- context [exec (deliver ?c) w1] =>
      set (w2 := exec (deliver c) w1) end;
    destruct (run_updates_keep_commands ticks w2) as (Hr & Hp & Ha & Ht);
    unfold mode; rewrite Hr, Hp, ?Ha, ?Ht; split; reflexivity.
Qed.

Lemma deliver_publishes (e : Event) (w : World) :
  length (publishes (trace (deliver e) w)) = (if is_update e then 1 else 0)%nat.
Proof. destruct e; [world_cases w|..]; reflexivity. Qed.

Lemma deliver_forces_length (e : Event) (w : World) :
  length (forces (trace (deliver e) w))
  = (if is_update e && received_first_command_ (this w) then 1 else 0)%nat.
Proof. destruct e; [world_cases w|..]; reflexivity. Qed.

Lemma deliver_received_first_command (e : Event) (w : World) :
  received_first_command_ (this (exec (deliver e) w))
  = if is_update e then received_first_command_ (this w) else true.
Proof. destruct e; [world_cases w|..]; reflexivity. Qed.

Lemma publishes_app (cs1 cs2 : list Call) :
  publishes (cs1 ++ cs2) = publishes cs1 ++ publishes cs2.
Proof. apply omap_app. Qed.

Lemma updates_cons (e : Event) (es : list Event) :
  updates (e :: es) = ((if is_update e then 1 else 0) + updates es)%nat.
Proof. reflexivity. Qed.

Lemma run_forces_length_commanded (es : list Event) (w : World) :
  received_first_command_ (this w) = true ->
  length (forces (trace (run es) w)) = updates es.
Proof.
  revert w. induction es as [|e es IH]; intros w Hrfc.
  - reflexivity.
  - rewrite trace_run_cons, forces_app, length_app, updates_cons.
    rewrite deliver_forces_length, Hrfc, andb_true_r, IH; [reflexivity|].
    rewrite deliver_received_first_command, Hrfc.
    destruct (is_update e); reflexivity.
Qed.

(** X4.  Over any sequence of events the plugin publishes exactly once per
    update event, and calls [SetForce] exactly once per update event that
    comes after the first command (once per update event when a command
    was received before the sequence). *)
Theorem X4_calls_per_update (es : list Event) (w : World) :
  length (publishes (trace (run es) w)) = updates es
  /\ length (forces (trace (run es) w))
     = updates (if received_first_command_ (this w) then es
                else from_first_command es).
Proof.
  split.
  - revert w. induction es as [|e es IH]; intros w.
    + reflexivity.
    + rewrite trace_run_cons, publishes_app, length_app, updates_cons.
      rewrite deliver_publishes, IH. reflexivity.
  - destruct (received_first_command_ (this w)) eqn:Hrfc.
    + apply run_forces_length_commanded, Hrfc.
    + revert w Hrfc. induction es as [|e es IH]; intros w Hrfc.
      * reflexivity.
      * rewrite trace_run_cons, forces_app, length_app.
        rewrite deliver_forces_length, Hrfc, andb_false_r.
        simpl from_first_command. destruct (is_update e) eqn:He.
        -- apply IH. rewrite deliver_received_first_command, He. exact Hrfc.
        -- rewrite updates_cons, He. apply run_forces_length_commanded.
           rewrite deliver_received_first_command, He. reflexivity.
Qed.



Lemma run_updates_torque_mode (ticks : list (UpdateInfo * Joint)) (w : World) :
  mode (this w) = TorqueControl ->
  forces (trace (run (map update_of ticks)) w)
  = replicate (length ticks)
      (limit (torque_reference_ (this w)) (max_torque_ (this w))
         (- max_torque_ (this w))).
Proof.
  revert w. induction ticks as [|[_info j] ticks IH]; intros w Hmode.
  - reflexivity.
  - change (map update_of ((_info, j) :: ticks))
      with (WorldUpdateBegin _info j :: map update_of ticks).
    rewrite trace_run_cons, forces_app, IH.
    + rewrite trace_deliver_update, OnUpdate_forces.
      change (mode (this (exec (iteration _info j) w))) with (mode (this w)).
      rewrite Hmode.
      destruct (deliver_update_keeps_commands (_info, j) w) as (_ & _ & _ & Ht).
      change (update_of (_info, j)) with (WorldUpdateBegin _info j) in Ht.
      rewrite Ht, deliver_max_torque. reflexivity.
    + rewrite deliver_update_mode. exact Hmode.
Qed.

(** X6.  Torque control is open loop and steady: after a torque command,
    every following update event writes the same torque,
    [limit(torque, max_torque, -max_torque)], whatever the joint does,
    whatever the simulation times are and whatever the plugin did before. *)
Theorem X6_torque_control_is_steady (msg : CommandTorqueServoMotor)
    (ticks : list (UpdateInfo * Joint)) (w : World) :
  forces (trace (run (CommandTorque msg :: map update_of ticks)) w)
  = replicate (length ticks)
      (limit (torque msg) (max_torque_ (this w)) (- max_torque_ (this w))).
Proof.
  rewrite trace_run_cons.
  change (trace (deliver (CommandTorque msg)) w) with (@nil Call).
  rewrite app_nil_l.
  rewrite (run_updates_torque_mode ticks); [reflexivity|].
  world_cases w; reflexivity.
Qed.

(** X17.  A torque command within the torque limit is applied as it is,
    and one beyond the limit is cut to the limit: after a torque command
    [t], every following update event writes [t] itself when
    [-max_torque <= t <= max_torque], [max_torque] when [t] is above and
    [-max_torque] when [t] is below. *)
Theorem X17_torque_command_applied_or_cut (msg : CommandTorqueServoMotor)
    (ticks : list (UpdateInfo * Joint)) (w : World) :
  0 <= max_torque_ (this w) ->
  let written :=
    forces (trace (run (CommandTorque msg :: map update_of ticks)) w) in
  (- max_torque_ (this w) <= torque msg <= max_torque_ (this w) ->
   written = replicate (length ticks) (torque msg))
  /\ (max_torque_ (this w) < torque msg ->
      written = replicate (length ticks) (max_torque_ (this w)))
  /\ (torque msg < - max_torque_ (this w) ->
      written = replicate (length ticks) (- max_torque_ (this w))).
Proof.
  intros Hmax written.
  assert (Hw : written
               = replicate (length ticks)
                   (limit (torque msg) (max_torque_ (this w))
                      (- max_torque_ (this w)))).
  { subst written. rewrite trace_run_cons.
    change (trace (deliver (CommandTorque msg)) w) with (@nil Call).
    rewrite app_nil_l.
    rewrite (run_updates_torque_mode ticks); [reflexivity|].
    world_cases w; reflexivity. }
  rewrite Hw. split; [|split].
  - intros [Hlo Hhi]. rewrite limit_inside by assumption. reflexivity.
  - intros Hgt. rewrite limit_above by lra. reflexivity.
  - intros Hlt. rewrite limit_below by lra. reflexivity.
Qed.

End RunFacts.

(** ** Timing *)

Section TimingFacts.

Context {L : Limit}.

Lemma run_commands_keep_prev_sim_time (cmds : list Event) (w : World) :
  Forall (fun e => is_update e = false) cmds ->
  prev_sim_time (exec (run cmds) w) = prev_sim_time w.
Proof.
  intros Hcmds. revert w. induction Hcmds as [|e cmds He _ IH]; intros w.
  - reflexivity.
  - rewrite exec_run_cons, IH. destruct e; [discriminate He|reflexivity..].
Qed.

(** X7.  [sampling_time_] measures the simulation time between two
    consecutive update events, whatever commands arrive in between and
    whatever the mode is: it is the elapsed time when that lies between
    1 ms and 1 s, 1 s after a longer gap and 1 ms after a shorter one or a
    step back in time. *)
Theorem X7_sampling_time_between_updates (i1 i2 : UpdateInfo) (j1 j2 : Joint)
    (cmds : list Event) (w : World) :
  Forall (fun e => is_update e = false) cmds ->
  let elapsed := Double (simTime i2) - Double (simTime i1) in
  let w' :=
    exec (run (WorldUpdateBegin i1 j1 :: cmds ++ [WorldUpdateBegin i2 j2])) w in
  sampling_time_ (this w') = limit elapsed 1.0 0.001
  /\ (0.001 <= elapsed <= 1.0 -> sampling_time_ (this w') = elapsed)
  /\ (1.0 < elapsed -> sampling_time_ (this w') = 1.0)
  /\ (elapsed < 0.001 -> sampling_time_ (this w') = 0.001).
Proof.
  intros Hcmds elapsed w'.
  assert (Hst : sampling_time_ (this w') = limit elapsed 1.0 0.001).
  { subst w' elapsed.
    rewrite exec_run_cons, exec_run_app, exec_run_cons.
    change (exec (run []) ?x) with x.
    rewrite exec_deliver_update, OnUpdate_sampling_time.
    unfold raw_sampling_time.
    change (prev_sim_time (exec (iteration i2 j2) ?x)) with (prev_sim_time x).
    rewrite (run_commands_keep_prev_sim_time cmds) by exact Hcmds.
    rewrite exec_deliver_update, OnUpdate_prev_sim_time. reflexivity. }
  rewrite Hst. split; [reflexivity|].
  split; [intros [Hlo Hhi]; apply limit_inside; assumption|].
  split; [intros Hgap; apply limit_above; [lra | exact Hgap]|].
  intros Hshort. apply limit_below; [lra | exact Hshort].
Qed.

(** X8.  The [static] [prev_sim_time] belongs to the function, not to the
    plugin object: when [OnUpdate] of one plugin has run in an iteration,
    [OnUpdate] of any other plugin object in the same iteration finds no
    time elapsed, so its [sampling_time_] is 0.001 however long the
    simulation step was, and in position control its integral accumulates
    [angle_error * 0.001]. *)
Theorem X8_static_shared_between_plugins (_info : UpdateInfo)
    (p : GazeboServoMotor) (j : Joint) (w : World) :
  let w1 := exec (OnUpdate _info) w in
  let w2 := exec (OnUpdate _info) (exec (other_plugin p j) w1) in
  sampling_time_ (this w2) = 0.001
  /\ (mode p = PositionControl ->
      angle_error_integral_ (this w2)
      = limit (angle_error_integral_ p
               + (angle_reference_ p - GetAngle j) * 0.001)
          (max_angle_error_integral_ p) (- max_angle_error_integral_ p)).
Proof.
  intros w1 w2.
  assert (Hst : limit (raw_sampling_time _info (exec (other_plugin p j) w1))
                  1.0 0.001 = 0.001).
  { unfold raw_sampling_time.
    change (prev_sim_time (exec (other_plugin p j) w1))
      with (prev_sim_time w1).
    subst w1. rewrite OnUpdate_prev_sim_time. simpl default.
    apply limit_below; lra. }
  subst w2. split.
  - rewrite OnUpdate_sampling_time. exact Hst.
  - intros Hmode. rewrite OnUpdate_angle_error_integral, Hst.
    change (mode (this (exec (other_plugin p j) w1))) with (mode p).
    rewrite Hmode. reflexivity.
Qed.

End TimingFacts.

(** ** The position law *)

Section PositionLawFacts.

Context {L : Limit}.

(** [limit] is monotone in its value when the bounds are in order. *)
Lemma limit_monotone (v1 v2 upper lower : Q) :
  lower <= upper -> v1 <= v2 ->
  limit v1 upper lower <= limit v2 upper lower.
Proof.
  intros Hlu Hv.
  destruct (limit_range v1 upper lower Hlu) as [Hlo1 Hhi1].
  destruct (limit_range v2 upper lower Hlu) as [Hlo2 Hhi2].
  destruct (Qlt_le_dec v1 lower) as [H1|H1].
  - rewrite (limit_below v1) by assumption. exact Hlo2.
  - destruct (Qlt_le_dec upper v2) as [H2|H2].
    + rewrite (limit_above v2) by assumption. exact Hhi1.
    + rewrite (limit_inside v1), (limit_inside v2) by lra. exact Hv.
Qed.

(** The sampling time of any update is at least 1 ms. *)
Lemma sampling_time_positive (_info : UpdateInfo) (w : World) :
  0.001 <= limit (raw_sampling_time _info w) 1.0 0.001.
Proof. apply limit_range. lra. Qed.

(** The torque and the integral of one update in position control, with
    the sampling time of the update. *)
Lemma deliver_update_position (_info : UpdateInfo) (j : Joint) (w : World) :
  mode (this w) = PositionControl ->
  let w' := exec (deliver (WorldUpdateBegin _info j)) w in
  let dt := limit (raw_sampling_time _info w) 1.0 0.001 in
  let angle_error := angle_reference_ (this w) - GetAngle j in
  angle_error_integral_ (this w')
  = limit (angle_error_integral_ (this w) + angle_error * dt)
      (max_angle_error_integral_ (this w))
      (- max_angle_error_integral_ (this w))
  /\ forces (trace (deliver (WorldUpdateBegin _info j)) w)
     = [limit (kp_ (this w) * angle_error - kd_ (this w) * GetVelocity j
               + ki_ (this w) * angle_error_integral_ (this w'))
          (max_torque_ (this w)) (- max_torque_ (this w))].
Proof.
  intros Hmode w' dt angle_error. subst w' dt angle_error.
  rewrite trace_deliver_update, exec_deliver_update.
  rewrite OnUpdate_forces, OnUpdate_angle_error_integral.
  change (mode (this (exec (iteration _info j) w))) with (mode (this w)).
  rewrite Hmode. split; reflexivity.
Qed.

(** X9.  The position law is monotone in the commanded angle: with
    non-negative [kp_] and [ki_] and non-negative limits, of two position
    commands the one with the larger angle never gets the smaller torque
    at the next update, from the same state and joint. *)
Theorem X9_position_law_monotone_in_reference (w : World)
    (_info : UpdateInfo) (j : Joint) (r1 r2 : Q) :
  0 <= kp_ (this w) -> 0 <= ki_ (this w) ->
  0 <= max_angle_error_integral_ (this w) -> 0 <= max_torque_ (this w) ->
  r1 <= r2 ->
  exists tq1 tq2 : Q,
    forces (trace (deliver (WorldUpdateBegin _info j))
              (exec (PositionCommandCallback {| motor_angle := r1 |}) w))
    = [tq1]
    /\ forces (trace (deliver (WorldUpdateBegin _info j))
                 (exec (PositionCommandCallback {| motor_angle := r2 |}) w))
       = [tq2]
    /\ tq1 <= tq2.
Proof.
  intros Hkp Hki HmaxI Hmax Hr.
  destruct (deliver_update_position _info j
              (exec (PositionCommandCallback {| motor_angle := r1 |}) w))
    as [Hi1 Hf1]; [reflexivity|].
  destruct (deliver_update_position _info j
              (exec (PositionCommandCallback {| motor_angle := r2 |}) w))
    as [Hi2 Hf2]; [reflexivity|].
  cbv zeta in Hi1, Hf1, Hi2, Hf2.
  do 2 eexists. split; [exact Hf1|]. split; [exact Hf2|].
  rewrite Hi1, Hi2.
  change (raw_sampling_time _info (exec (PositionCommandCallback _) w))
    with (raw_sampling_time _info w).
  pose proof (sampling_time_positive _info w) as Hdt.
  set (dt := limit (raw_sampling_time _info w) 1.0 0.001) in *.
  simpl.
  apply limit_monotone; [lra|].
  assert (Hint :
    limit (angle_error_integral_ (this w) + (r1 - GetAngle j) * dt)
      (max_angle_error_integral_ (this w))
      (- max_angle_error_integral_ (this w))
    <= limit (angle_error_integral_ (this w) + (r2 - GetAngle j) * dt)
         (max_angle_error_integral_ (this w))
         (- max_angle_error_integral_ (this w))).
  { apply limit_monotone; [lra|]. nra. }
  nra.
Qed.

(** X10.  The velocity term damps: with non-negative [kd_] and a
    non-negative torque limit, of two joints at the same angle the faster
    one never gets the larger torque from the position law. *)
Theorem X10_position_law_damps_velocity (w : World) (_info : UpdateInfo)
    (j1 j2 : Joint) :
  mode (this w) = PositionControl ->
  0 <= kd_ (this w) -> 0 <= max_torque_ (this w) ->
  GetAngle j1 = GetAngle j2 -> GetVelocity j1 <= GetVelocity j2 ->
  exists tq1 tq2 : Q,
    forces (trace (deliver (WorldUpdateBegin _info j1)) w) = [tq1]
    /\ forces (trace (deliver (WorldUpdateBegin _info j2)) w) = [tq2]
    /\ tq2 <= tq1.
Proof.
  intros Hmode Hkd Hmax Hangle Hvel.
  destruct (deliver_update_position _info j1 w Hmode) as [Hi1 Hf1].
  destruct (deliver_update_position _info j2 w Hmode) as [Hi2 Hf2].
  cbv zeta in Hi1, Hf1, Hi2, Hf2.
  do 2 eexists. split; [exact Hf1|]. split; [exact Hf2|].
  rewrite Hi1, Hi2, Hangle.
  apply limit_monotone; [lra|]. nra.
Qed.

(** X11.  A joint at rest at the reference with an empty integral is left
    alone: in position control, with the joint angle equal to the
    reference, zero velocity and a zero integral, the update writes a
    torque equal to 0 and the integral stays equal to 0. *)
Theorem X11_rest_at_reference (w : World) (_info : UpdateInfo) (j : Joint) :
  mode (this w) = PositionControl ->
  0 <= max_angle_error_integral_ (this w) -> 0 <= max_torque_ (this w) ->
  angle_reference_ (this w) == GetAngle j ->
  GetVelocity j == 0 ->
  angle_error_integral_ (this w) == 0 ->
  let w' := exec (deliver (WorldUpdateBegin _info j)) w in
  angle_error_integral_ (this w') == 0
  /\ exists tq : Q,
       forces (trace (deliver (WorldUpdateBegin _info j)) w) = [tq]
       /\ tq == 0.
Proof.
  intros Hmode HmaxI Hmax Href Hvel Hint w'.
  destruct (deliver_update_position _info j w Hmode) as [Hi Hf].
  cbv zeta in Hi, Hf. fold w' in Hi, Hf.
  set (dt := limit (raw_sampling_time _info w) 1.0 0.001) in *.
  assert (Hsum :
    angle_error_integral_ (this w)
    + (angle_reference_ (this w) - GetAngle j) * dt == 0).
  { rewrite Hint, Href. ring. }
  assert (Hi0 : angle_error_integral_ (this w') == 0).
  { rewrite Hi, limit_inside; [exact Hsum | rewrite Hsum; lra ..]. }
  split; [exact Hi0|].
  eexists. split; [exact Hf|].
  assert (Hraw :
    kp_ (this w) * (angle_reference_ (this w) - GetAngle j)
    - kd_ (this w) * GetVelocity j
    + ki_ (this w) * angle_error_integral_ (this w') == 0).
  { rewrite Hi0, Href, Hvel. ring. }
  rewrite limit_inside; [exact Hraw | rewrite Hraw; lra ..].
Qed.


(** X13.  The integral does not leak: in position control with the joint
    angle equal to the reference and the integral within its bound, an
    update leaves the integral equal to what it was. *)
Theorem X13_integral_holds_at_zero_error (w : World) (_info : UpdateInfo)
    (j : Joint) :
  mode (this w) = PositionControl ->
  - max_angle_error_integral_ (this w) <= angle_error_integral_ (this w)
    <= max_angle_error_integral_ (this w) ->
  angle_reference_ (this w) == GetAngle j ->
  angle_error_integral_ (this (exec (deliver (WorldUpdateBegin _info j)) w))
  == angle_error_integral_ (this w).
Proof.
  intros Hmode [Hlo Hhi] Href.
  destruct (deliver_update_position _info j w Hmode) as [Hi _].
  cbv zeta in Hi.
  set (dt := limit (raw_sampling_time _info w) 1.0 0.001) in *.
  assert (Hsum :
    angle_error_integral_ (this w)
    + (angle_reference_ (this w) - GetAngle j) * dt
    == angle_error_integral_ (this w)).
  { rewrite Href. ring. }
  rewrite Hi, limit_inside; [exact Hsum | rewrite Hsum; assumption ..].
Qed.

End PositionLawFacts.

(** ** Loading *)

Section LoadFacts.

Context {P : SdfParam}.

(** X14.  When the joint is found, [Load] writes nothing to the error
    stream exactly when the plugin element has all five of
    [robotNamespace], [jointName], [motorModel], [maxTorque] and
    [noLoadSpeed]; the optional parameters are never reported. *)
Theorem X14_load_reports_nothing_iff_complete (this0 : GazeboServoMotor)
    (_model : Model) (_sdf : Sdf) (j : Joint) :
  _model !! looked_up_joint this0 _sdf = Some j ->
  reported (Load this0 _model _sdf) = []
  <-> is_Some (_sdf !! "robotNamespace")
      /\ is_Some (_sdf !! "jointName")
      /\ is_Some (_sdf !! "motorModel")
      /\ is_Some (_sdf !! "maxTorque")
      /\ is_Some (_sdf !! "noLoadSpeed").
Proof.
  unfold Load, looked_up_joint, read_or_gzerr, reported. intros Hsome.
  destruct (_sdf !! "robotNamespace"), (_sdf !! "jointName");
    rewrite Hsome;
    destruct (_sdf !! "motorModel"), (_sdf !! "maxTorque"),
      (_sdf !! "noLoadSpeed");
    simpl; split;
    first [ discriminate
          | intros _; repeat split; eexists; reflexivity
          | intros (H1 & H2 & H3 & H4 & H5);
            first [ destruct H1 as [? H1]; discriminate H1
                  | destruct H2 as [? H2]; discriminate H2
                  | destruct H3 as [? H3]; discriminate H3
                  | destruct H4 as [? H4]; discriminate H4
                  | destruct H5 as [? H5]; discriminate H5 ] ].
Qed.

(** X15.  The exception comes before the later checks: when the joint is
    not found, [Load] throws with the looked-up name in the message, having
    reported a missing [robotNamespace] and a missing [jointName] and
    nothing else; a missing [motorModel], [maxTorque] or [noLoadSpeed] is
    not reported. *)
Theorem X15_load_throw_precedes_later_reports (this0 : GazeboServoMotor)
    (_model : Model) (_sdf : Sdf) :
  _model !! looked_up_joint this0 _sdf = None ->
  Load this0 _model _sdf
  = Thrown
      (match _sdf !! "robotNamespace" with
       | Some _ => []
       | None => [msg_robotNamespace]
       end
       ++ match _sdf !! "jointName" with
          | Some _ => []
          | None => [msg_jointName]
          end)
      (msg_joint_not_found (looked_up_joint this0 _sdf)).
Proof.
  unfold Load, looked_up_joint, read_or_gzerr. intros Hnone.
  destruct (_sdf !! "robotNamespace"), (_sdf !! "jointName");
    rewrite Hnone; reflexivity.
Qed.

(** X16.  The two command topics are derived from one base name and never
    coincide: after [Load] the position commands are subscribed on
    [command_sub_topic_ + "_position"], the torque commands on
    [command_sub_topic_ + "_torque"], and the two names differ. *)
Theorem X16_load_command_topics (this0 : GazeboServoMotor) (_model : Model)
    (_sdf : Sdf) (gzerr : list string) (this' : GazeboServoMotor)
    (joint' : Joint) (conn : Connections) :
  Load this0 _model _sdf = Loaded gzerr this' joint' conn ->
  position_command_sub_ conn = command_sub_topic_ this' +:+ "_position"
  /\ torque_command_sub_ conn = command_sub_topic_ this' +:+ "_torque"
  /\ position_command_sub_ conn <> torque_command_sub_ conn
  /\ joint_state_pub_ conn = joint_state_pub_topic_ this'
  /\ node_handle_ conn = namespace_ this'.
Proof.
  unfold Load, read_or_gzerr. intros Hload.
  destruct (_sdf !! "robotNamespace"), (_sdf !! "jointName");
    destruct (_model !! _); try discriminate Hload;
    destruct (_sdf !! "motorModel"), (_sdf !! "maxTorque"),
      (_sdf !! "noLoadSpeed");
    injection Hload as <- <- <- <-; simpl;
    (split; [reflexivity|]); (split; [reflexivity|]);
    (split; [|split; reflexivity]);
    intros Heq; apply String.app_inj in Heq; discriminate Heq.
Qed.

End LoadFacts.

(** ** Concrete data for the further properties *)

(** [demo_world] after a position command of 0.5 rad. *)
Definition demo_world_commanded : World :=
  exec (PositionCommandCallback {| motor_angle := 0.5 |}) demo_world.

(** [demo_world] with the reference at the joint angle. *)
Definition demo_world_at_reference : World :=
  exec (PositionCommandCallback {| motor_angle := 0.0 |}) demo_world.


(** [demo_joint] turning at 1 rad/s. *)
Definition demo_joint_turning : Joint :=
  {| GetParentScopedName := "arm::base";
     GetAngle := 0.0;
     GetVelocity := 1.0;
     GetForce := 0.0;
     GetLowerLimit := -1.5;
     GetUpperLimit := 1.5 |}.

(** One command of each kind. *)
Definition demo_commands : list Event :=
  [CommandPosition {| motor_angle := 0.5 |}; CommandTorque {| torque := 1.0 |}].

(** ** Concrete runs of the further properties *)

Lemma demo_commands_are_commands :
  Forall (fun e => is_update e = false) demo_commands.
Proof. repeat constructor. Qed.

(** X2 on two commands. *)
Lemma X2_witness_two_commands :
  trace (run (L := clamp_Limit) demo_commands) demo_world = [].
Proof.
  apply (@X2_commands_are_silent clamp_Limit demo_commands demo_world).
  exact demo_commands_are_commands.
Defined.


(** X7 on two updates 10 ms apart with two commands in between. *)
Lemma X7_witness_ten_milliseconds :
  sampling_time_
    (this (exec (run (L := clamp_Limit)
                   (WorldUpdateBegin (update_info_at 1000) demo_joint
                    :: demo_commands
                    ++ [WorldUpdateBegin (update_info_at 1010) demo_joint]))
             demo_world))
  = Double (simTime (update_info_at 1010))
    - Double (simTime (update_info_at 1000)).
Proof.
  pose proof (@X7_sampling_time_between_updates clamp_Limit
                (update_info_at 1000) (update_info_at 1010)
                demo_joint demo_joint demo_commands demo_world
                demo_commands_are_commands) as Hx.
  cbv zeta in Hx. destruct Hx as (_ & Hin & _).
  apply Hin. split; vm_compute; discriminate.
Defined.

(** X9 on the references 0.5 rad and 1.0 rad. *)
Lemma X9_witness_two_references :
  exists tq1 tq2 : Q,
    forces (trace (deliver (L := clamp_Limit)
                     (WorldUpdateBegin (update_info_at 1000) demo_joint))
              (exec (PositionCommandCallback {| motor_angle := 0.5 |})
                 demo_world))
    = [tq1]
    /\ forces (trace (deliver (L := clamp_Limit)
                        (WorldUpdateBegin (update_info_at 1000) demo_joint))
                 (exec (PositionCommandCallback {| motor_angle := 1.0 |})
                    demo_world))
       = [tq2]
    /\ tq1 <= tq2.
Proof.
  apply (@X9_position_law_monotone_in_reference clamp_Limit demo_world
           (update_info_at 1000) demo_joint 0.5 1.0);
    vm_compute; discriminate.
Defined.

(** X10 on the joint at rest and the joint turning at 1 rad/s. *)
Lemma X10_witness_turning_joint :
  exists tq1 tq2 : Q,
    forces (trace (deliver (L := clamp_Limit)
                     (WorldUpdateBegin (update_info_at 1000) demo_joint))
              demo_world_commanded)
    = [tq1]
    /\ forces (trace (deliver (L := clamp_Limit)
                        (WorldUpdateBegin (update_info_at 1000)
                           demo_joint_turning))
                 demo_world_commanded)
       = [tq2]
    /\ tq2 <= tq1.
Proof.
  apply (@X10_position_law_damps_velocity clamp_Limit demo_world_commanded
           (update_info_at 1000) demo_joint demo_joint_turning);
    first [reflexivity | vm_compute; discriminate].
Defined.

(** X11 on the joint at rest at the reference. *)
Lemma X11_witness_at_reference :
  angle_error_integral_
    (this (exec (deliver (L := clamp_Limit)
                   (WorldUpdateBegin (update_info_at 1000) demo_joint))
             demo_world_at_reference))
  == 0
  /\ exists tq : Q,
       forces (trace (deliver (L := clamp_Limit)
                        (WorldUpdateBegin (update_info_at 1000) demo_joint))
                 demo_world_at_reference)
       = [tq]
       /\ tq == 0.
Proof.
  apply (@X11_rest_at_reference clamp_Limit demo_world_at_reference
           (update_info_at 1000) demo_joint);
    first [reflexivity | vm_compute; discriminate].
Defined.


(** X13 on the joint at the reference. *)
Lemma X13_witness_at_reference :
  angle_error_integral_
    (this (exec (deliver (L := clamp_Limit)
                   (WorldUpdateBegin (update_info_at 1000) demo_joint))
             demo_world_at_reference))
  == angle_error_integral_ (this demo_world_at_reference).
Proof.
  apply (@X13_integral_holds_at_zero_error clamp_Limit
           demo_world_at_reference (update_info_at 1000) demo_joint).
  - reflexivity.
  - split; vm_compute; discriminate.
  - reflexivity.
Defined.

(** X14 on [demo_sdf], which lacks four of the five elements. *)
Lemma X14_witness_incomplete_element :
  reported (Load (P := default_SdfParam) demo_servo demo_model demo_sdf) = []
  <-> is_Some (demo_sdf !! "robotNamespace")
      /\ is_Some (demo_sdf !! "jointName")
      /\ is_Some (demo_sdf !! "motorModel")
      /\ is_Some (demo_sdf !! "maxTorque")
      /\ is_Some (demo_sdf !! "noLoadSpeed").
Proof.
  apply (@X14_load_reports_nothing_iff_complete default_SdfParam demo_servo
           demo_model demo_sdf demo_joint).
  vm_compute. reflexivity.
Defined.

(** X15 on a model without joints. *)
Lemma X15_witness_empty_model :
  Load (P := default_SdfParam) demo_servo ∅ demo_sdf
  = Thrown
      (match demo_sdf !! "robotNamespace" with
       | Some _ => []
       | None => [msg_robotNamespace]
       end
       ++ match demo_sdf !! "jointName" with
          | Some _ => []
          | None => [msg_jointName]
          end)
      (msg_joint_not_found (looked_up_joint demo_servo demo_sdf)).
Proof.
  apply (@X15_load_throw_precedes_later_reports default_SdfParam demo_servo
           ∅ demo_sdf).
  vm_compute. reflexivity.
Defined.

(** X16 on the load of [demo_sdf]. *)
Lemma X16_witness_demo_load :
  match Load (P := default_SdfParam) demo_servo demo_model demo_sdf with
  | Loaded _ _ _ conn =>
      position_command_sub_ conn <> torque_command_sub_ conn
  | Thrown _ _ => False
  end.
Proof.
  destruct (Load (P := default_SdfParam) demo_servo demo_model demo_sdf)
    as [gzerr what|gzerr this' joint' conn] eqn:Hload.
  - vm_compute in Hload. discriminate Hload.
  - apply (@X16_load_command_topics default_SdfParam demo_servo demo_model
             demo_sdf gzerr this' joint' conn Hload).
Defined.

(** X17 on a torque command of 1.0 with the limit at 10.0. *)
Lemma X17_witness_within_limit :
  forces (trace (run (L := clamp_Limit)
                   (CommandTorque {| torque := 1.0 |}
                    :: map update_of
                         [(update_info_at 1000, demo_joint);
                          (update_info_at 1010, demo_joint_turning)]))
            demo_world)
  = replicate 2 1.0.
Proof.
  pose proof (@X17_torque_command_applied_or_cut clamp_Limit
                {| torque := 1.0 |}
                [(update_info_at 1000, demo_joint);
                 (update_info_at 1010, demo_joint_turning)]
                demo_world) as Hx.
  cbv zeta in Hx. destruct Hx as (Hin & _); [vm_compute; discriminate|].
  apply Hin. split; vm_compute; discriminate.
Defined.
